(** * MCS Act chatbot: retrieval pipeline and chat front end

    A shallow embedding of

    - [backend/supabase_setup.sql]: the table [mcs_documents], its index
      and the similarity search function [match_documents];
    - [frontend/src/api.js]: [sendMessage], [checkHealth], [downloadPDF];
    - [frontend/src/components/ChatInterface.jsx]: [handleSend],
      [handleInputChange] and the places that call [handleSend];
    - [frontend/src/components/InputBox.jsx]: the key and click handlers;

    together with the parts of the pipeline that live in the Python back end
    ([pdf_processor.py], [main.py]) and are described by the specification
    only: the chunker, the model failover of the answer generator and the
    validation done by [answer_question].

    Conventions.  SQL [double precision] values are real numbers extended with
    [NaN].  The distance operator of pgvector accumulates in single
    precision: overflow to an infinity and underflow to zero are modelled,
    the rounding of finite values is not.  [match_documents] is the query as the
    script states it (scan, filter, sort, limit); [match_documents_via] adds
    the access path that the planner picks, a sequential scan or a scan of
    the [ivfflat] index, which is approximate, holds no vector of norm zero
    and compares the query with its list centres. *)

From Stdlib Require Import String Ascii.
From Stdlib Require Import Reals Lra Lia ZArith List Bool Arith.
From Stdlib Require Import Sorting.Sorted Permutation.
Import ListNotations.

Set Implicit Arguments.

(* ================================================================== *)
(** * Part I. Definitions                                              *)
(* ================================================================== *)

(** ** Strings *)

(** The test for the empty string ([!s] in JavaScript, [not s] in Python). *)
Definition is_empty (s : string) : bool :=
  match s with EmptyString => true | String _ _ => false end.

(** ** SQL [double precision] *)

Module Float8.

Local Open Scope R_scope.

(** A [double precision] value: a number, or [NaN]. *)
Inductive float8 : Type :=
| Num (x : R)
| NaN.

(** [a - b] ([float8mi]); [NaN] propagates. *)
Definition sub (a b : float8) : float8 :=
  match a, b with
  | Num x, Num y => Num (x - y)
  | _, _ => NaN
  end.

(** [a > b] ([float8gt]).  PostgreSQL orders [NaN] above every number
    and equal to itself, so that floats can be sorted and indexed. *)
Definition gt (a b : float8) : bool :=
  match a, b with
  | Num x, Num y => if Rlt_dec y x then true else false
  | NaN, Num _ => true
  | _, NaN => false
  end.

(** [a <= b] in the same order; the comparison of [ORDER BY ... ASC]. *)
Definition le (a b : float8) : bool := negb (gt a b).



(** The literals [1] and [0.5] of the script. *)
Definition one : float8 := Num 1.
Definition half : float8 := Num (5 / 10).

End Float8.

Arguments Float8.sub : simpl never.
Arguments Float8.gt : simpl never.

(** ** Errors raised by the database *)

Inductive pg_error : Type :=
| DifferentVectorDimensions (n m : nat)   (* pgvector, any binary operator *)
| ExpectedDimensions (expected got : nat) (* pgvector, typed column *)
| LimitMustNotBeNegative.                 (* executor, LIMIT *)

Inductive result (A : Type) : Type :=
| Ok (a : A)
| Err (e : pg_error).

Arguments Ok {A} a.
Arguments Err {A} e.

Definition bind {A B : Type} (r : result A) (f : A -> result B) : result B :=
  match r with
  | Ok a => f a
  | Err e => Err e
  end.

Declare Scope result_scope.
Delimit Scope result_scope with result.
Notation "x <- r ;; k" := (bind r (fun x => k))
  (at level 61, r at next level, right associativity) : result_scope.

(** ** pgvector: vectors and the cosine distance operator [<=>] *)

Module PgVector.

Import Float8.
Local Open Scope R_scope.

(** A vector.  Its entries are single precision values, taken as the real
    numbers they denote. *)
Definition vector : Type := list R.

(** The exact inner product and squared norm.  The index computes the norm
    of a vector in double precision, where it neither overflows nor
    underflows. *)
Fixpoint dot (a b : vector) : R :=
  match a, b with
  | x :: a', y :: b' => x * y + dot a' b'
  | _, _ => 0
  end.

Definition norm2 (a : vector) : R := dot a a.

(** A floating-point value as far as its range goes: a finite value, an
    infinity, or NaN.  The rounding of a finite result to the nearest
    representable value is left out. *)
Inductive fp : Type :=
| Finite (x : R)
| Infinity (negative : bool)
| NotANumber.

(** The range of single precision: a result of magnitude [2^128 - 2^103] or
    more becomes an infinity, one of magnitude [2^-150] or less becomes
    zero. *)
Definition float4_overflow : R := IZR (2 ^ 128 - 2 ^ 103).
Definition float4_underflow : R := / IZR (2 ^ 150).

Definition to_float4 (x : R) : fp :=
  if Rle_dec float4_overflow x then Infinity false
  else if Rle_dec x (- float4_overflow) then Infinity true
  else if Rle_dec (Rabs x) float4_underflow then Finite 0
  else Finite x.

(** [acc += x * y] on a single precision accumulator. *)
Definition accumulate (acc : fp) (x y : R) : fp :=
  match acc, to_float4 (x * y) with
  | NotANumber, _ => NotANumber
  | _, NotANumber => NotANumber
  | Infinity s, Infinity s' =>
      if Bool.eqb s s' then Infinity s else NotANumber
  | Infinity s, Finite _ => Infinity s
  | Finite _, Infinity s => Infinity s
  | Finite a, Finite p => to_float4 (a + p)
  end.

(** An accumulator that adding zero leaves as it is. *)
Definition settled (acc : fp) : Prop :=
  match acc with
  | Finite x => to_float4 x = Finite x
  | Infinity _ => True
  | NotANumber => True
  end.

(** The loop of a distance function over the entries of two vectors. *)
Fixpoint accumulate_products (acc : fp) (a b : vector) : fp :=
  match a, b with
  | x :: a', y :: b' => accumulate_products (accumulate acc x y) a' b'
  | _, _ => acc
  end.

(** Double precision, whose range the values met here do not leave:
    product, square root and quotient. *)
Definition fp_mul (a b : fp) : fp :=
  match a, b with
  | NotANumber, _ => NotANumber
  | _, NotANumber => NotANumber
  | Finite x, Finite y => Finite (x * y)
  | Infinity s, Finite y =>
      if Req_dec_T y 0 then NotANumber
      else Infinity (xorb s (if Rlt_dec y 0 then true else false))
  | Finite x, Infinity s =>
      if Req_dec_T x 0 then NotANumber
      else Infinity (xorb s (if Rlt_dec x 0 then true else false))
  | Infinity s, Infinity s' => Infinity (xorb s s')
  end.

Definition fp_sqrt (a : fp) : fp :=
  match a with
  | Finite x => if Rlt_dec x 0 then NotANumber else Finite (sqrt x)
  | Infinity false => Infinity false
  | Infinity true => NotANumber
  | NotANumber => NotANumber
  end.

(** The quotient by a value that is not negative. *)
Definition fp_div (a b : fp) : fp :=
  match a, b with
  | NotANumber, _ => NotANumber
  | _, NotANumber => NotANumber
  | Finite x, Finite y =>
      if Req_dec_T y 0
      then if Req_dec_T x 0 then NotANumber
           else Infinity (if Rlt_dec x 0 then true else false)
      else Finite (x / y)
  | Finite _, Infinity _ => Finite 0
  | Infinity s, Finite _ => Infinity s
  | Infinity _, Infinity _ => NotANumber
  end.

(** [if (similarity > 1) similarity = 1; else if (similarity < -1)
    similarity = -1;]: NaN passes both comparisons unchanged. *)
Definition keep_in_range (s : fp) : fp :=
  match s with
  | Finite x =>
      if Rlt_dec 1 x then Finite 1
      else if Rlt_dec x (-1) then Finite (-1)
      else Finite x
  | Infinity false => Finite 1
  | Infinity true => Finite (-1)
  | NotANumber => NotANumber
  end.

(** The cosine similarity of two vectors of the same dimension, as the
    distance function computes it: the inner product and the two squared
    norms are accumulated in single precision, the quotient
    [similarity / sqrt (norma * normb)] is taken in double precision and
    kept in [[-1, 1]].  It is NaN when the quotient is [0 / 0] (a vector
    whose squared norm is zero or underflows to zero) or
    [infinity / infinity] (sums that overflow). *)
Definition cosine_similarity (a b : vector) : float8 :=
  let similarity := accumulate_products (Finite 0) a b in
  let norma := accumulate_products (Finite 0) a a in
  let normb := accumulate_products (Finite 0) b b in
  match keep_in_range (fp_div similarity (fp_sqrt (fp_mul norma normb))) with
  | Finite s => Num s
  | Infinity _ => NaN
  | NotANumber => NaN
  end.

(** [a <=> b].  The operator first checks that both operands have the same
    number of dimensions and raises otherwise. *)
Definition cosine_distance (a b : vector) : result float8 :=
  if Nat.eqb (length a) (length b)
  then Ok (sub one (cosine_similarity a b))
  else Err (DifferentVectorDimensions (length a) (length b)).

End PgVector.

(** ** The table [mcs_documents] and the function [match_documents] *)

Module VectorIndex.

Import Float8 PgVector.
Local Open Scope result_scope.

(** [embedding vector(384)] *)
Definition embedding_dims : nat := 384.

(** A row of [mcs_documents].  [content] is [NOT NULL]; [metadata] and
    [embedding] are nullable. *)
Record mcs_document : Type := {
  doc_id : Z;
  doc_content : string;
  doc_metadata : option string;
  doc_embedding : option vector;
  doc_created_at : Z
}.

(** The table with the state of the [BIGSERIAL] sequence behind [id]. *)
Record mcs_documents : Type := {
  rows : list mcs_document;
  next_id : Z
}.

Definition empty_table : mcs_documents := {| rows := []; next_id := 1 |}.

(** The typed column [embedding vector(384)] accepts [NULL] and vectors of
    exactly 384 dimensions. *)
Definition check_embedding (e : option vector) : result unit :=
  match e with
  | None => Ok tt
  | Some v =>
      if Nat.eqb (length v) embedding_dims then Ok tt
      else Err (ExpectedDimensions embedding_dims (length v))
  end.

(** [INSERT INTO mcs_documents (content, metadata, embedding) VALUES ...];
    [id] and [created_at] take their defaults. *)
Definition insert_document (t : mcs_documents) (content : string)
    (metadata : option string) (embedding : option vector) (now : Z)
  : result mcs_documents :=
  _ <- check_embedding embedding ;;
  Ok {| rows := rows t ++
                [{| doc_id := next_id t; doc_content := content;
                    doc_metadata := metadata; doc_embedding := embedding;
                    doc_created_at := now |}];
        next_id := (next_id t + 1)%Z |}.

(** A row of the result of [match_documents]. *)
Record match_row : Type := {
  id : Z;
  content : string;
  metadata : option string;
  similarity : float8
}.

(** A row that passed the [WHERE] clause, with its [ORDER BY] key. *)
Definition candidate : Type := (float8 * match_row)%type.

(** [FROM mcs_documents WHERE 1 - (embedding <=> query_embedding) >
    match_threshold], with the select list evaluated.  A [NULL] embedding
    makes the operator, and then the condition, [NULL]: the row is dropped. *)
Fixpoint scan (docs : list mcs_document) (query_embedding : vector)
    (match_threshold : float8) : result (list candidate) :=
  match docs with
  | [] => Ok []
  | d :: docs' =>
      match doc_embedding d with
      | None => scan docs' query_embedding match_threshold
      | Some e =>
          dist <- cosine_distance e query_embedding ;;
          rest <- scan docs' query_embedding match_threshold ;;
          let sim := sub one dist in
          if gt sim match_threshold
          then Ok ((dist,
                    {| id := doc_id d; content := doc_content d;
                       metadata := doc_metadata d; similarity := sim |})
                   :: rest)
          else Ok rest
      end
  end.

(** [ORDER BY embedding <=> query_embedding] (ascending): insertion into a
    list sorted by the key. Rows with equal keys keep their scan order; SQL
    leaves their order open. *)
Fixpoint insert_by_distance (c : candidate) (l : list candidate)
  : list candidate :=
  match l with
  | [] => [c]
  | c' :: l' =>
      if le (fst c) (fst c') then c :: c' :: l'
      else c' :: insert_by_distance c l'
  end.

Fixpoint order_by_distance (l : list candidate) : list candidate :=
  match l with
  | [] => []
  | c :: l' => insert_by_distance c (order_by_distance l')
  end.

(** The order established by [order_by_distance]. *)
Definition key_le (c c' : candidate) : Prop := le (fst c) (fst c') = true.

(** What [scan] keeps: a row of the table with a non-NULL embedding whose
    similarity to the query passed the [WHERE] clause. *)
Definition from_scan (docs : list mcs_document) (query_embedding : vector)
    (match_threshold : float8) (c : candidate) : Prop :=
  exists d e,
    In d docs /\ doc_embedding d = Some e /\
    cosine_distance e query_embedding = Ok (fst c) /\
    similarity (snd c) = sub one (fst c) /\
    gt (similarity (snd c)) match_threshold = true /\
    id (snd c) = doc_id d /\ content (snd c) = doc_content d /\
    metadata (snd c) = doc_metadata d.


(** Every stored embedding has the dimension of the query. *)
Definition stored_dims (t : mcs_documents) (n : nat) : Prop :=
  forall d e, In d (rows t) -> doc_embedding d = Some e -> length e = n.

(** [match_documents(query_embedding, match_threshold, match_count)], the
    query as the script states it, read by a sequential scan.

    The parenthesised modifier of a parameter type is discarded by
    [CREATE FUNCTION]: [query_embedding vector(384)] declares a parameter of
    type [vector], so the only dimension check is the one of [<=>].
    A negative [LIMIT] is rejected before any row is fetched, and with
    [LIMIT 0] no row is fetched at all.  [match_count] is an [int] that the
    caller could pass; the arguments are taken to be non-NULL. *)
Definition match_documents (t : mcs_documents) (query_embedding : vector)
    (match_threshold : float8) (match_count : Z) : result (list match_row) :=
  if (match_count <? 0)%Z then Err LimitMustNotBeNegative
  else if (match_count =? 0)%Z then Ok []
  else
    cands <- scan (rows t) query_embedding match_threshold ;;
    Ok (firstn (Z.to_nat match_count)
          (map snd (order_by_distance cands))).

(** [match_count int]: the values that the parameter can take. *)
Definition int4 (k : Z) : Prop := (-2147483648 <= k <= 2147483647)%Z.

(** The access path that the planner picks for the query: a sequential
    scan of the table, or a scan of the index
    [USING ivfflat (embedding vector_cosine_ops) WITH (lists = 100)], which
    visits the rows of the lists that it probes. *)
Inductive access_path : Type :=
| SeqScan
| IndexScan (probed : mcs_document -> bool).

(** What the index holds: the rows whose embedding is neither [NULL] nor of
    norm zero (a vector of norm zero has no direction to index). *)
Definition in_index (d : mcs_document) : bool :=
  match doc_embedding d with
  | Some e => if Req_dec_T (norm2 e) 0%R then false else true
  | None => false
  end.

(** The rows that a scan of the index visits. *)
Definition index_scan_rows (probed : mcs_document -> bool)
    (t : mcs_documents) : mcs_documents :=
  {| rows := filter (fun d => in_index d && probed d) (rows t);
     next_id := next_id t |}.

(** [match_documents] with its access path.  A scan of the index first
    compares the query with the list centres, which have the 384
    dimensions of the column, also when the table is empty; it then returns
    the rows it visits in the order of their distance, and the [WHERE] clause
    filters them.  The order of rows at the same distance is that of
    [order_by_distance] in both paths; SQL leaves it open.  The index orders
    by the distance it computes itself, on normalised vectors; where that
    differs from the value of the operator (when the operator overflows)
    the order of an index scan is not the one given here. *)
Definition match_documents_via (p : access_path) (t : mcs_documents)
    (query_embedding : vector) (match_threshold : float8) (match_count : Z)
  : result (list match_row) :=
  match p with
  | SeqScan =>
      match_documents t query_embedding match_threshold match_count
  | IndexScan probed =>
      if (match_count <? 0)%Z then Err LimitMustNotBeNegative
      else if (match_count =? 0)%Z then Ok []
      else if Nat.eqb (length query_embedding) embedding_dims
      then match_documents (index_scan_rows probed t) query_embedding
             match_threshold match_count
      else Err (DifferentVectorDimensions embedding_dims
                  (length query_embedding))
  end.





(** The tables that [INSERT]s can build from the empty one. *)
Inductive reachable : mcs_documents -> Prop :=
| reachable_empty : reachable empty_table
| reachable_insert (t t' : mcs_documents) (c : string) (m : option string)
    (e : option vector) (now : Z) :
    reachable t -> insert_document t c m e now = Ok t' -> reachable t'.

(** A call that may leave out the arguments declared with a [DEFAULT]:
    [match_threshold float DEFAULT 0.5], [match_count int DEFAULT 3]. *)
Definition match_documents_call (t : mcs_documents) (query_embedding : vector)
    (match_threshold : option float8) (match_count : option Z)
  : result (list match_row) :=
  match_documents t query_embedding
    (match match_threshold with Some th => th | None => half end)
    (match match_count with Some k => k | None => 3%Z end).

End VectorIndex.

(** ** Retriever *)

Module Retriever.

(** Modelled from the spec: the defaults that the signature
    [retrieve(question, threshold=0.5, top_k=3)] declares; the function
    itself is part of [main.py]. *)
Definition default_threshold : Float8.float8 := Float8.Num (5 / 10).

(** Modelled from the spec: [top_k=3]. *)
Definition default_top_k : Z := 3.

End Retriever.

(** ** Sample data for the vector index *)

Module Samples.

Import Float8 PgVector VectorIndex.
Local Open Scope result_scope.

(** The first basis vector and the zero vector of dimension 384. *)
Definition unit_vector : vector := 1%R :: repeat 0%R 383.
Definition zero_vector : vector := repeat 0%R 384.

(** A vector of the wrong dimension. *)
Definition short_vector : vector := [1%R; 2%R; 3%R].

(** A vector of dimension 384 with the entry [2^70]. *)
Definition huge_vector : vector := IZR (2 ^ 70) :: repeat 0%R 383.

Definition unit_doc : mcs_document :=
  {| doc_id := 1; doc_content := "section 1"; doc_metadata := None;
     doc_embedding := Some unit_vector; doc_created_at := 0 |}.

Definition zero_doc : mcs_document :=
  {| doc_id := 2; doc_content := "section 2"; doc_metadata := None;
     doc_embedding := Some zero_vector; doc_created_at := 0 |}.

(** One chunk stored. *)
Definition unit_table : mcs_documents := {| rows := [unit_doc]; next_id := 2 |}.

(** Two chunks stored, the second one with a zero embedding. *)
Definition mixed_table : mcs_documents :=
  {| rows := [unit_doc; zero_doc]; next_id := 3 |}.

(** Both tables as results of [INSERT]s into the empty table. *)
Definition build_mixed_table : result mcs_documents :=
  t1 <- insert_document empty_table "section 1" None (Some unit_vector) 0 ;;
  insert_document t1 "section 2" None (Some zero_vector) 0.

Definition unit_match : match_row :=
  {| id := 1; content := "section 1"; metadata := None;
     similarity := sub one (Num 0) |}.

Definition zero_match : match_row :=
  {| id := 2; content := "section 2"; metadata := None;
     similarity := NaN |}.

(** One chunk stored, with the embedding [huge_vector]. *)
Definition huge_doc : mcs_document :=
  {| doc_id := 1; doc_content := "section 1"; doc_metadata := None;
     doc_embedding := Some huge_vector; doc_created_at := 0 |}.

Definition huge_table : mcs_documents := {| rows := [huge_doc]; next_id := 2 |}.

Definition huge_match : match_row :=
  {| id := 1; content := "section 1"; metadata := None;
     similarity := NaN |}.

End Samples.

(** ** Chunker *)

Module Chunker.

Inductive chunk_error : Type := ConfigurationError.

(** The characters on which a text is split. *)
Definition is_whitespace (c : ascii) : bool :=
  match nat_of_ascii c with
  | 9 | 10 | 11 | 12 | 13 | 32 => true
  | _ => false
  end.

(** Modelled from the spec: "splits text on whitespace into a word
    sequence".  [word] is the word read so far. *)
Fixpoint split_from (s : string) (word : string) : list string :=
  match s with
  | EmptyString => if is_empty word then [] else [word]
  | String c s' =>
      if is_whitespace c
      then (if is_empty word then split_from s' EmptyString
            else word :: split_from s' EmptyString)
      else split_from s' (word ++ String c EmptyString)
  end.

Definition split_words (text : string) : list string :=
  split_from text EmptyString.

(** Modelled from the spec: the chunking loop of [pdf_processor.py], which
    is not part of the sources.  "Chunk i starts at word offset
    i * (chunk_size - overlap) and spans chunk_size words (last chunk may be
    shorter)": every round cuts [chunk_size] words and moves on by
    [step = chunk_size - overlap] words.  The chunk that reaches the last
    word is the final one, as the count
    [ceil((N - overlap) / (chunk_size - overlap))] and "a source shorter
    than chunk_size yields exactly one chunk" require. *)
Fixpoint chunk_loop (fuel chunk_size step : nat) (words : list string)
  : list (list string) :=
  match fuel with
  | O => []
  | S fuel' =>
      firstn chunk_size words ::
      (if length words <=? chunk_size then []
       else chunk_loop fuel' chunk_size step (skipn step words))
  end.

(** Modelled from the spec: [chunk(text, chunk_size=500, overlap=50)] on
    the word sequence.  "Fails with ConfigurationError if
    overlap >= chunk_size"; "produces non-empty chunks only", so a text
    without words has no chunk. *)
Definition chunk_words (words : list string) (chunk_size overlap : nat)
  : chunk_error + list (list string) :=
  if chunk_size <=? overlap then inl ConfigurationError
  else
    match words with
    | [] => inr []
    | _ :: _ =>
        inr (chunk_loop (length words) chunk_size (chunk_size - overlap)
               words)
    end.

Definition chunk (text : string) (chunk_size overlap : nat)
  : chunk_error + list (list string) :=
  chunk_words (split_words text) chunk_size overlap.

(** Modelled from the spec: "default chunk_size = 500, overlap = 50". *)
Definition default_chunk_size : nat := 500.
Definition default_overlap : nat := 50.

(** [ceil (a / b)] on natural numbers. *)
Definition ceil_div (a b : nat) : nat := (a + b - 1) / b.

(** Modelled from the spec: "number of chunks =
    ceil((N - overlap) / (chunk_size - overlap)) when N > chunk_size,
    else 1". *)
Definition expected_chunks (n chunk_size overlap : nat) : nat :=
  if n <=? chunk_size then 1
  else ceil_div (n - overlap) (chunk_size - overlap).

End Chunker.

(** ** Answer generator *)

Module AnswerGenerator.

Inductive model : Type := Primary | Fallback.

Definition model_eq_dec (a b : model) : {a = b} + {a <> b}.
Proof. decide equality. Defined.

Inductive failure : Type :=
| Timeout | RateLimit | Non2xx | MalformedResponse.

(** The result of one completion call. *)
Inductive completion : Type :=
| Completed (text : string)
| Failed (f : failure).

(** Modelled from the spec: the model-call state machine of [generate];
    the function is part of [main.py], which is not in the sources. *)
Inductive state : Type :=
| TRY_PRIMARY
| TRY_FALLBACK
| DONE (m : model) (text : string)
| FAILED.

(** Modelled from the spec: the four transitions of the state machine;
    terminal states stay. *)
Definition step (s : state) (c : completion) : state :=
  match s, c with
  | TRY_PRIMARY, Completed text => DONE Primary text
  | TRY_PRIMARY, Failed _ => TRY_FALLBACK
  | TRY_FALLBACK, Completed text => DONE Fallback text
  | TRY_FALLBACK, Failed _ => FAILED
  | DONE m text, _ => DONE m text
  | FAILED, _ => FAILED
  end.

(** Modelled from the spec: the model that a state calls; terminal states
    call none. *)
Definition next_model (s : state) : option model :=
  match s with
  | TRY_PRIMARY => Some Primary
  | TRY_FALLBACK => Some Fallback
  | DONE _ _ | FAILED => None
  end.

Record citation : Type := {
  source_filename : string;
  sequence_index : nat;
  total_chunks_in_source : nat
}.

Record retrieved_match : Type := {
  match_content : string;
  match_citation : citation;
  match_similarity : Float8.float8
}.

Record AnswerResult : Type := {
  answer : string;
  citations : list citation;
  model_used : model
}.

Inductive generate_error : Type := BothModelsUnavailableError.

Local Open Scope string_scope.

Definition context_of (matches : list retrieved_match) : string :=
  match matches with
  | [] => "No supporting context was found."
  | _ :: _ =>
      String.concat "
" (map (fun m => "[" ++ source_filename (match_citation m) ++ "] "
                     ++ match_content m) matches)
  end.

(** Modelled from the spec: the prompt instructs the model to answer from
    the context only, lists the matches with their citation, and ends with
    the verbatim question. *)
Definition build_prompt (question : string)
    (matches : list retrieved_match) : string :=
  "Answer only from the context below.
" ++ context_of matches ++ "
Question: " ++ question.

Section Providers.

(** The two completion providers. *)
Variable complete : model -> string -> completion.

(** Modelled from the spec: runs the state machine, logging every model
    that is called; "no retries within a single model". *)
Fixpoint drive (fuel : nat) (s : state) (prompt : string)
    (calls : list model) : state * list model :=
  match fuel with
  | O => (s, calls)
  | S fuel' =>
      match next_model s with
      | None => (s, calls)
      | Some m =>
          drive fuel' (step s (complete m prompt)) prompt (calls ++ [m])
      end
  end.

(** Modelled from the spec: [generate(question, matches)], with the log
    of the completion calls it made.  Two rounds reach a terminal
    state. *)
Definition generate (question : string) (matches : list retrieved_match)
  : (generate_error + AnswerResult) * list model :=
  let (s, calls) :=
    drive 2 TRY_PRIMARY (build_prompt question matches) [] in
  (match s with
   | DONE m text =>
       inr {| answer := text;
              citations := map match_citation matches;
              model_used := m |}
   | _ => inl BothModelsUnavailableError
   end, calls).

End Providers.

(** A pair of providers for examples: the primary one times out. *)
Definition primary_down (m : model) (prompt : string) : completion :=
  match m with
  | Primary => Failed Timeout
  | Fallback => Completed "Section 9 applies."
  end.

End AnswerGenerator.

(** ** JavaScript strings and values

    Strings are sequences of code units below 256.  A property that is a
    string when it is there is an [option]; a property that can hold any
    value of a JSON document is a [value]. *)

Module Js.

Local Open Scope string_scope.

(** The white space that [String.prototype.trim] removes, among the code
    units below 256. *)
Definition is_whitespace (c : ascii) : bool :=
  match nat_of_ascii c with
  | 9 | 10 | 11 | 12 | 13 | 32 | 160 => true
  | _ => false
  end.

Fixpoint trim_start (s : string) : string :=
  match s with
  | EmptyString => EmptyString
  | String c s' => if is_whitespace c then trim_start s' else s
  end.

Fixpoint trim_end (s : string) : string :=
  match s with
  | EmptyString => EmptyString
  | String c s' =>
      let r := trim_end s' in
      if is_empty r && is_whitespace c then EmptyString else String c r
  end.

(** [s.trim()] *)
Definition trim (s : string) : string := trim_end (trim_start s).

(** Truthiness of a value that is a string, [undefined] or [null]. *)
Definition truthy (v : option string) : bool :=
  match v with
  | Some s => negb (is_empty s)
  | None => false
  end.

(** [a || b] *)
Definition or (a b : option string) : option string :=
  if truthy a then a else b.

(** An [Error] object; [new Error(m)] has the message [String(m)], and the
    empty message when [m] is [undefined]. *)
Record error : Type := { message : string }.

Definition new_Error (m : option string) : error :=
  {| message := match m with Some s => s | None => EmptyString end |}.

(** The message of the [TypeError] raised by reading a property of
    [undefined] or [null]; the wording is the engine's. *)
Definition type_error_message : string :=
  "Cannot read properties of undefined (reading 'answer')".

#[local] Set Warnings "-register-all".

(** The values that a property of a parsed JSON document can have, and
    [undefined] for a property that is not there.  A number is given by its
    decimal form, as [String] prints it, and by whether it is [0] or
    [NaN]. *)
Inductive value : Type :=
| VUndefined
| VNull
| VBool (b : bool)
| VNumber (text : string) (zero_or_nan : bool)
| VString (s : string)
| VArray (items : list value)
| VObject.

(** Truthiness: [undefined], [null], [false], [0], [NaN] and the empty string
    are falsy; every array and every object is truthy, the empty array
    included. *)
Definition truthy_value (v : value) : bool :=
  match v with
  | VUndefined | VNull => false
  | VBool b => b
  | VNumber _ z => negb z
  | VString s => negb (is_empty s)
  | VArray _ | VObject => true
  end.

(** [a || b] on values. *)
Definition or_value (a b : value) : value :=
  if truthy_value a then a else b.

(** [String(v)].  An array prints its items separated by commas, with
    nothing for an item that is [null] or [undefined]; an object that does
    not define [toString] prints as [[object Object]]. *)
Fixpoint to_string (v : value) : string :=
  match v with
  | VUndefined => "undefined"
  | VNull => "null"
  | VBool true => "true"
  | VBool false => "false"
  | VNumber text _ => text
  | VString s => s
  | VArray items =>
      (fix join (l : list value) : string :=
         match l with
         | [] => ""
         | x :: l' =>
             let head :=
               match x with
               | VUndefined | VNull => ""
               | _ => to_string x
               end in
             match l' with
             | [] => head
             | _ :: _ => head ++ "," ++ join l'
             end
         end) items
  | VObject => "[object Object]"
  end.

(** [new Error(v)]: the message is [String(v)], and empty when [v] is
    [undefined]. *)
Definition new_Error_of (v : value) : error :=
  {| message := match v with
                | VUndefined => EmptyString
                | _ => to_string v
                end |}.

(** A string that may be missing, as a value. *)
Definition of_option (v : option string) : value :=
  match v with Some s => VString s | None => VUndefined end.

End Js.

(** ** Query orchestrator *)

Module QueryOrchestrator.

Import AnswerGenerator.

(** The calls that leave the process. *)
Inductive network_call : Type :=
| EmbedCall (text : string)
| SearchCall
| CompletionCall (m : model).

Inductive query_error : Type :=
| InvalidInputError
| EmbeddingError
| IndexUnavailableError
| BothModelsUnavailable.

Section Collaborators.

Variable embed : string -> option PgVector.vector.
Variable search :
  PgVector.vector -> Float8.float8 -> Z -> option (list retrieved_match).
Variable complete : model -> string -> completion.

(** Modelled from the spec: [retrieve(question, threshold=0.5, top_k=3)]
    embeds the question and searches the index; a failure of either
    call propagates. *)
Definition retrieve (question : string)
  : (query_error + list retrieved_match) * list network_call :=
  match embed question with
  | None => (inl EmbeddingError, [EmbedCall question])
  | Some v =>
      match search v Retriever.default_threshold
              Retriever.default_top_k with
      | None => (inl IndexUnavailableError,
                 [EmbedCall question; SearchCall])
      | Some matches => (inr matches, [EmbedCall question; SearchCall])
      end
  end.

(** Modelled from the spec: the validation of a question.  The
    orchestrator "validates question is non-empty", and [InvalidInputError]
    is the error of an "empty/malformed question"; a question with nothing
    but white space in it is taken as empty, as the chat interface, the one
    caller in the sources, takes it. *)
Definition is_blank (question : string) : bool :=
  is_empty (Js.trim question).

(** Modelled from the spec: [answer_question(question)] "validates
    question is non-empty (fails with InvalidInputError otherwise), calls
    Retriever then Answer Generator, and returns the combined result";
    it is part of [main.py], which is not in the sources. *)
Definition answer_question (question : string)
  : (query_error + AnswerResult) * list network_call :=
  if is_blank question then (inl InvalidInputError, [])
  else
    match retrieve question with
    | (inl e, calls) => (inl e, calls)
    | (inr matches, calls) =>
        match generate complete question matches with
        | (inl _, models) =>
            (inl BothModelsUnavailable,
             calls ++ map CompletionCall models)
        | (inr r, models) => (inr r, calls ++ map CompletionCall models)
        end
    end.

End Collaborators.

End QueryOrchestrator.

(** ** [api.js] *)

Module Api.

Import Js.
Local Open Scope string_scope.

(** [error.response.data] when it is an object, with the two properties
    that are read.  The body is whatever JSON the server sent: [detail] is a
    string in the errors that the application raises and an array of
    objects in the validation errors of the framework. *)
Record error_body : Type := {
  detail : value;
  body_message : value
}.

(** [error.response] *)
Record http_response : Type := {
  status : Z;
  data : option error_body
}.

(** The value that a failed [axios.post] rejects with; [data] is [None]
    when the body is missing or has no properties to read (a string, say). *)
Record axios_error : Type := {
  response : option http_response;
  axios_message : option string
}.

Record source : Type := {
  filename : string;
  chunk_id : Z;
  total_chunks : Z
}.

(** [response.data] of a successful [POST /api/chat], when it is an
    object. *)
Record chat_reply : Type := {
  answer : option string;
  sources : option (list source)
}.

Inductive axios_result : Type :=
| Fulfilled (reply : option chat_reply)
| Rejected (e : axios_error).

(** [error.response?.data?.detail] *)
Definition response_detail (e : axios_error) : value :=
  match response e with
  | Some r =>
      match data r with Some b => detail b | None => VUndefined end
  | None => VUndefined
  end.

(** [error.response?.data?.message] *)
Definition response_message (e : axios_error) : value :=
  match response e with
  | Some r =>
      match data r with Some b => body_message b | None => VUndefined end
  | None => VUndefined
  end.

(** [error.message] *)
Definition error_message (e : axios_error) : value :=
  of_option (axios_message e).

(** [error.response?.data?.detail || error.response?.data?.message ||
    error.message || 'Failed to get response from server'] *)
Definition errorMessage (e : axios_error) : value :=
  or_value
    (or_value (or_value (response_detail e) (response_message e))
       (error_message e))
    (VString "Failed to get response from server").

(** [sendMessage(question)], over the outcome of [axios.post]: the reply
    on success, a thrown [Error] on failure. *)
Definition sendMessage (post : string -> axios_result) (question : string)
  : error + option chat_reply :=
  match post question with
  | Fulfilled reply => inr reply
  | Rejected e => inl (new_Error_of (errorMessage e))
  end.

(** What tells failures apart before [sendMessage] handles them: whether
    the server answered, and with which status. *)
Inductive failure_kind : Type :=
| NoResponse
| HttpStatus (code : Z).

Definition kind_of (e : axios_error) : failure_kind :=
  match response e with
  | Some r => HttpStatus (status r)
  | None => NoResponse
  end.

(** Two failures for examples: the index cannot be reached (503), and no
    document is found (404); the server words both the same way. *)
Definition unavailable_503 : axios_error :=
  {| response := Some {| status := 503;
                         data := Some {| detail := VString "Request failed";
                                         body_message := VUndefined |} |};
     axios_message := Some "Request failed with status code 503" |}.

(** The server cannot be reached at all. *)
Definition network_error : axios_error :=
  {| response := None; axios_message := Some "Network Error" |}.

Definition server_down_post (question : string) : axios_result :=
  Rejected network_error.

Definition not_found_404 : axios_error :=
  {| response := Some {| status := 404;
                         data := Some {| detail := VString "Request failed";
                                         body_message := VUndefined |} |};
     axios_message := Some "Request failed with status code 404" |}.

(** A request that the framework rejects (422): [detail] is an array with
    one object for each invalid field. *)
Definition validation_422 : axios_error :=
  {| response := Some {| status := 422;
                         data := Some {| detail := VArray [VObject];
                                         body_message :=
                                           VString "Invalid request" |} |};
     axios_message := Some "Request failed with status code 422" |}.

(** A failure whose body has an empty array as [detail]. *)
Definition empty_detail_500 : axios_error :=
  {| response := Some {| status := 500;
                         data := Some {| detail := VArray [];
                                         body_message :=
                                           VString "Internal error" |} |};
     axios_message := Some "Request failed with status code 500" |}.

End Api.

(** ** [ChatInterface.jsx] *)

Module ChatInterface.

Import Js Api.
Local Open Scope string_scope.

Inductive role : Type := user | assistant.

Record chat_message : Type := {
  msg_role : role;
  content : option string;
  timestamp : Z;
  msg_sources : option (list source);
  isError : bool
}.

(** The state of the component ([useState]). *)
Record chat_state : Type := {
  messages : list chat_message;
  inputText : string;
  loading : bool;
  error : option string
}.

(** The component state and the requests sent to the API so far. *)
Record world : Type := {
  ui : chat_state;
  requests : list string
}.

(** How a piece of code completes. *)
Inductive completion (A : Type) : Type :=
| Normal (a : A)
| Throw (e : Js.error).

Arguments Normal {A} a.
Arguments Throw {A} e.

(** Code that acts on the world. *)
Definition eff (A : Type) : Type := world -> completion A * world.

Definition ret {A : Type} (a : A) : eff A := fun w => (Normal a, w).

Definition throw {A : Type} (e : Js.error) : eff A :=
  fun w => (Throw e, w).

Definition seq {A B : Type} (m : eff A) (k : A -> eff B) : eff B :=
  fun w =>
    match m w with
    | (Normal a, w') => k a w'
    | (Throw e, w') => (Throw e, w')
    end.

(** [try { body } catch (err) { handler } finally { cleanup }] *)
Definition try_catch_finally {A : Type} (body : eff A)
    (handler : Js.error -> eff A) (cleanup : eff unit) : eff A :=
  fun w =>
    let (c, w1) :=
      match body w with
      | (Normal a, w') => (Normal a, w')
      | (Throw e, w') => handler e w'
      end in
    match cleanup w1 with
    | (Normal _, w2) => (c, w2)
    | (Throw e, w2) => (Throw e, w2)
    end.

Definition update (f : chat_state -> chat_state) : eff unit :=
  fun w => (Normal tt, {| ui := f (ui w); requests := requests w |}).

Definition setMessages (f : list chat_message -> list chat_message)
  : eff unit :=
  update (fun s => {| messages := f (messages s); inputText := inputText s;
                      loading := loading s; error := error s |}).

Definition setInputText (v : string) : eff unit :=
  update (fun s => {| messages := messages s; inputText := v;
                      loading := loading s; error := error s |}).

Definition setLoading (v : bool) : eff unit :=
  update (fun s => {| messages := messages s; inputText := inputText s;
                      loading := v; error := error s |}).

Definition setError (v : option string) : eff unit :=
  update (fun s => {| messages := messages s; inputText := inputText s;
                      loading := loading s; error := v |}).

(** [await sendMessage(question)]: the request is recorded, and the call
    returns or throws as [Api.sendMessage] does. *)
Definition await_sendMessage (post : string -> axios_result)
    (question : string) : eff (option chat_reply) :=
  fun w =>
    let w' :=
      {| ui := ui w; requests := (requests w ++ [question])%list |} in
    match sendMessage post question with
    | inr reply => (Normal reply, w')
    | inl e => (Throw e, w')
    end.

(** Reading [response.answer] and [response.sources]: a [TypeError] when
    [response] is [undefined] or [null]. *)
Definition read_reply (response : option chat_reply) : eff chat_reply :=
  match response with
  | Some r => ret r
  | None => throw (new_Error (Some type_error_message))
  end.

Definition string_or (v : option string) (default : string) : string :=
  match or v (Some default) with Some s => s | None => default end.

Notation "x <- m ;; k" := (seq m (fun x => k))
  (at level 61, m at next level, right associativity).
Notation "m ;;; k" := (seq m (fun _ => k))
  (at level 61, right associativity).

(** [handleSend], run in the state [st] that its closure captured;
    [t_user] and [t_reply] are the two readings of the clock. *)
Definition handleSend (post : string -> axios_result) (t_user t_reply : Z)
    (st : chat_state) : eff unit :=
  let question := trim (inputText st) in
  if is_empty question || loading st then ret tt
  else
    setError None ;;;
    let userMessage :=
      {| msg_role := user; content := Some question; timestamp := t_user;
         msg_sources := None; isError := false |} in
    setMessages (fun prev => (prev ++ [userMessage])%list) ;;;
    setInputText "" ;;;
    setLoading true ;;;
    try_catch_finally
      (response <- await_sendMessage post question ;;
       reply <- read_reply response ;;
       let assistantMessage :=
         {| msg_role := assistant; content := answer reply;
            timestamp := t_reply;
            msg_sources :=
              Some (match sources reply with Some l => l | None => [] end);
            isError := false |} in
       setMessages (fun prev => (prev ++ [assistantMessage])%list))
      (fun err =>
         setError
           (Some (string_or (Some (message err))
                    "Failed to get response. Please try again.")) ;;;
         let errorMessage :=
           {| msg_role := assistant;
              content :=
                Some ("Sorry, I encountered an error: " ++
                      string_or (Some (message err))
                        "Failed to get response. Please check your connection and try again.");
              timestamp := t_reply; msg_sources := None;
              isError := true |} in
         setMessages (fun prev => (prev ++ [errorMessage])%list))
      (setLoading false).

(** One invocation of the handler in the state [st], with no request
    sent before. *)
Definition run_handleSend (post : string -> axios_result)
    (t_user t_reply : Z) (st : chat_state) : completion unit * world :=
  handleSend post t_user t_reply st {| ui := st; requests := [] |}.

(** The message that the handler appends for the user. *)
Definition user_message (question : string) (t_user : Z) : chat_message :=
  {| msg_role := user; content := Some question; timestamp := t_user;
     msg_sources := None; isError := false |}.

(** Sample states and servers. *)
Definition fresh_state (text : string) : chat_state :=
  {| messages := []; inputText := text; loading := false; error := None |}.

Definition server_down : string -> axios_result := server_down_post.

Definition server_up (question : string) : axios_result :=
  Fulfilled (Some {| answer := Some "Section 9 applies.";
                     sources := None |}).

End ChatInterface.

(** A string that is empty or starts with something else than white
    space. *)
Definition no_leading_space (s : string) : Prop :=
  match s with
  | EmptyString => True
  | String c _ => Js.is_whitespace c = false
  end.

(** ** [api.js]: the other two helpers *)

Module ApiHelpers.

Import Js Api.
Local Open Scope string_scope.

(** The outcome of an [axios] request whose response body has type [A]. *)
Inductive request_result (A : Type) : Type :=
| Answered (body : A)
| Failed (e : axios_error).

Arguments Answered {A} body.
Arguments Failed {A} e.

(** [checkHealth()], over the outcome of [axios.get]: the body on success;
    on failure an [Error] with a fixed message. *)
Definition checkHealth {A : Type} (get : request_result A) : error + A :=
  match get with
  | Answered body => inr body
  | Failed _ => inl (new_Error (Some "Backend server is not responding"))
  end.

(** A property of [error.response?.data] in a request made with
    [responseType: 'blob']: the body of the response, that of a failure
    included, arrives as a [Blob], which has neither a [detail] nor a
    [message]; without a response the chain stops at [undefined]. *)
Definition blob_property (e : axios_error) : value := VUndefined.

(** [error.response?.data?.detail || error.response?.data?.message ||
    error.message || 'Failed to download PDF'] *)
Definition downloadErrorMessage (e : axios_error) : value :=
  or_value
    (or_value (or_value (blob_property e) (blob_property e))
       (error_message e))
    (VString "Failed to download PDF").

(** [downloadPDF(question)], over the outcome of [axios.post] with
    [responseType: 'blob']. *)
Definition downloadPDF {A : Type} (post : string -> request_result A)
    (question : string) : error + A :=
  match post question with
  | Answered blob => inr blob
  | Failed e => inl (new_Error_of (downloadErrorMessage e))
  end.

End ApiHelpers.

(** ** [InputBox.jsx] *)

Module InputBox.

Import Js.
Local Open Scope string_scope.

(** The properties that [ChatInterface] passes down; [onChange] and
    [onSend] are the callbacks. *)
Record props : Type := {
  value : string;
  disabled : bool;
  loading : bool
}.

Record key_event : Type := {
  key : string;
  shiftKey : bool
}.

(** What a handler did: whether it called [e.preventDefault()], and
    whether it called [onSend()]. *)
Record reaction : Type := {
  default_prevented : bool;
  send_called : bool
}.

(** [!disabled && !loading && value.trim()] *)
Definition may_send (p : props) : bool :=
  negb (disabled p) && negb (loading p) && truthy (Some (trim (value p))).

(** [handleKeyDown(e)] *)
Definition handleKeyDown (p : props) (e : key_event) : reaction :=
  if String.eqb (key e) "Enter" && negb (shiftKey e)
  then {| default_prevented := true; send_called := may_send p |}
  else {| default_prevented := false; send_called := false |}.

(** [handleSend()], the [onClick] of the button. *)
Definition handleSend (p : props) : reaction :=
  {| default_prevented := false; send_called := may_send p |}.

(** [disabled={!value.trim() || disabled || loading}] of the button. *)
Definition button_disabled (p : props) : bool :=
  negb (truthy (Some (trim (value p)))) || disabled p || loading p.

(** [disabled={disabled || loading}] of the text area. *)
Definition textarea_disabled (p : props) : bool :=
  disabled p || loading p.

(** A click on the button: a disabled button does not run its handler. *)
Definition click (p : props) : reaction :=
  if button_disabled p
  then {| default_prevented := false; send_called := false |}
  else handleSend p.

End InputBox.

(** ** [ChatInterface.jsx]: the other handlers and the wiring *)

Module ChatEvents.

Import Js Api ChatInterface.
Local Open Scope string_scope.

(** [handleInputChange(value)] *)
Definition handleInputChange (v : string) : eff unit :=
  setInputText v ;;; setError None.

(** [<InputBox value={inputText} disabled={loading} loading={loading}
    onSend={handleSend} />] *)
Definition input_props (st : chat_state) : InputBox.props :=
  {| InputBox.value := inputText st;
     InputBox.disabled := ChatInterface.loading st;
     InputBox.loading := ChatInterface.loading st |}.

(** A key pressed in the text area of the state [st]: [InputBox] decides
    whether [onSend], that is [handleSend], runs. *)
Definition press_key (post : string -> axios_result) (t_user t_reply : Z)
    (st : chat_state) (e : InputBox.key_event) : completion unit * world :=
  if InputBox.send_called (InputBox.handleKeyDown (input_props st) e)
  then run_handleSend post t_user t_reply st
  else (Normal tt, {| ui := st; requests := [] |}).

(** A click on the send button in the state [st]. *)
Definition click_send (post : string -> axios_result) (t_user t_reply : Z)
    (st : chat_state) : completion unit * world :=
  if InputBox.send_called (InputBox.click (input_props st))
  then run_handleSend post t_user t_reply st
  else (Normal tt, {| ui := st; requests := [] |}).

(** The [onClick] of an example button of the welcome screen, rendered in
    the state [st]: [setInputText(text); setTimeout(handleSend, 0)].  The
    timer runs the [handleSend] of the render that drew the button, whose
    closure holds [st]; by then the input holds [text]. *)
Definition click_example (post : string -> axios_result)
    (t_user t_reply : Z) (st : chat_state) (text : string)
  : completion unit * world :=
  (setInputText text ;;; handleSend post t_user t_reply st)
    {| ui := st; requests := [] |}.

(** [handleSend] up to its [await]: the guard and the updates made before
    the request leaves.  Returns the question that is sent, if any. *)
Definition handleSend_begin (t_user : Z) (st : chat_state)
  : eff (option string) :=
  let question := trim (inputText st) in
  if is_empty question || ChatInterface.loading st then ret None
  else
    setError None ;;;
    setMessages (fun prev => (prev ++ [user_message question t_user])%list) ;;;
    setInputText "" ;;;
    setLoading true ;;;
    ret (Some question).

(** [handleSend] from the point where the request settles: the rest of the
    [try] block, the [catch] block and the [finally] block. *)
Definition handleSend_settle (t_reply : Z)
    (outcome : Js.error + option chat_reply) : eff unit :=
  try_catch_finally
    (response <- (match outcome with
                  | inr r => ret r
                  | inl e => throw e
                  end) ;;
     reply <- read_reply response ;;
     let assistantMessage :=
       {| msg_role := assistant; content := answer reply;
          timestamp := t_reply;
          msg_sources :=
            Some (match sources reply with Some l => l | None => [] end);
          isError := false |} in
     setMessages (fun prev => (prev ++ [assistantMessage])%list))
    (fun err =>
       setError
         (Some (string_or (Some (message err))
                  "Failed to get response. Please try again.")) ;;;
       let errorMessage :=
         {| msg_role := assistant;
            content :=
              Some ("Sorry, I encountered an error: " ++
                    string_or (Some (message err))
                      "Failed to get response. Please check your connection and try again.");
            timestamp := t_reply; msg_sources := None;
            isError := true |} in
       setMessages (fun prev => (prev ++ [errorMessage])%list))
    (setLoading false).

(** The component with its requests in flight. *)
Record session : Type := {
  view : chat_state;
  in_flight : list string
}.

(** What can happen to the component: the user types, [handleSend] is
    invoked with the current state, or the oldest request in flight
    settles. *)
Inductive event : Type :=
| Typed (v : string)
| Submitted (t_user : Z)
| Settled (t_reply : Z) (r : axios_result).

Definition apply_eff {A : Type} (m : eff A) (st : chat_state)
  : completion A * chat_state :=
  let (c, w) := m {| ui := st; requests := [] |} in (c, ui w).

Definition step (s : session) (ev : event) : session :=
  match ev with
  | Typed v =>
      {| view := snd (apply_eff (handleInputChange v) (view s));
         in_flight := in_flight s |}
  | Submitted t_user =>
      match apply_eff (handleSend_begin t_user (view s)) (view s) with
      | (Normal (Some q), st') =>
          {| view := st'; in_flight := (in_flight s ++ [q])%list |}
      | (_, st') => {| view := st'; in_flight := in_flight s |}
      end
  | Settled t_reply r =>
      match in_flight s with
      | [] => s
      | q :: rest =>
          {| view :=
               snd (apply_eff
                      (handleSend_settle t_reply
                         (sendMessage (fun _ => r) q))
                      (view s));
             in_flight := rest |}
      end
  end.

(** [useState([])], [useState('')], [useState(false)], [useState(null)] *)
Definition initial_state : chat_state :=
  {| messages := []; inputText := ""; loading := false; error := None |}.

Definition initial_session : session :=
  {| view := initial_state; in_flight := [] |}.

Definition run_events (evs : list event) : session :=
  fold_left step evs initial_session.

(** A history of complete exchanges: a question of the user, then one
    message of the assistant, and so on. *)
Fixpoint exchanges (l : list chat_message) : Prop :=
  match l with
  | [] => True
  | u :: l1 =>
      match l1 with
      | [] => False
      | a :: l' =>
          msg_role u = user /\ isError u = false /\
          msg_role a = assistant /\ exchanges l'
      end
  end.

(** The state of a session: either nothing is in flight, [loading] is
    false and the history is made of complete exchanges; or one request is
    in flight, [loading] is true and the history ends with the question
    that was sent. *)
Definition consistent (s : session) : Prop :=
  (in_flight s = [] /\ ChatInterface.loading (view s) = false /\
   exchanges (messages (view s))) \/
  (exists q t_user hist,
     in_flight s = [q] /\ ChatInterface.loading (view s) = true /\
     messages (view s) = (hist ++ [user_message q t_user])%list /\
     exchanges hist).

(** The error banner and the last message: when [error] is set, nothing
    is in flight and the history ends with an error-flagged message of the
    assistant.  That message quotes the banner, unless the thrown [Error]
    had an empty message: then the banner and the message show the two
    different fixed texts of the [catch] block. *)
Definition banner_quotes_last (s : session) : Prop :=
  forall m, error (view s) = Some m ->
    in_flight s = [] /\
    exists hist a,
      messages (view s) = (hist ++ [a])%list /\ isError a = true /\
      msg_role a = assistant /\
      (content a = Some ("Sorry, I encountered an error: " ++ m) \/
       (m = "Failed to get response. Please try again." /\
        content a
        = Some ("Sorry, I encountered an error: " ++
                "Failed to get response. Please check your connection and try again."))).

End ChatEvents.

(** ** [ChatInterface.jsx]: where [handleSend] is called from *)

Module CallSites.

Import Js Api ChatInterface ChatEvents.
Local Open Scope string_scope.



End CallSites.

(* ================================================================== *)
(** * Part II. Properties                                              *)
(* ================================================================== *)

(** ** The order of [double precision] *)

Section Float8Order.

Import Float8.
Local Open Scope R_scope.

Lemma gt_num (x y : R) : gt (Num x) (Num y) = true <-> y < x.
Proof.
  unfold gt. destruct (Rlt_dec y x); split; intros; try easy; contradiction.
Qed.

Lemma gt_num_false (x y : R) : gt (Num x) (Num y) = false <-> x <= y.
Proof.
  unfold gt. destruct (Rlt_dec y x); split; intros; try easy; lra.
Qed.

Lemma le_num (x y : R) : le (Num x) (Num y) = true <-> x <= y.
Proof.
  unfold le. rewrite negb_true_iff. apply gt_num_false.
Qed.


Lemma le_total (a b : float8) : le a b = true \/ le b a = true.
Proof.
  destruct a as [x|], b as [y|]; cbn; auto.
  destruct (Rle_or_lt x y) as [H|H].
  - left. now apply le_num.
  - right. apply le_num. lra.
Qed.

Lemma le_false_flip (a b : float8) : le a b = false -> le b a = true.
Proof.
  intros H. destruct (le_total a b) as [H'|H']; congruence.
Qed.

Lemma le_trans (a b c : float8) :
  le a b = true -> le b c = true -> le a c = true.
Proof.
  destruct a as [x|], b as [y|], c as [z|]; cbn; try easy.
  fold (le (Num x) (Num y)) (le (Num y) (Num z)) (le (Num x) (Num z)).
  rewrite !le_num. lra.
Qed.

Lemma sub_one_num (x : R) : sub one (Num x) = Num (1 - x).
Proof. reflexivity. Qed.

End Float8Order.

(** ** Sorting by distance *)

Section OrderBy.

Import Float8 VectorIndex.

Lemma insert_by_distance_perm (c : candidate) (l : list candidate) :
  Permutation (c :: l) (insert_by_distance c l).
Proof.
  induction l as [|c' l IH]; cbn.
  - apply Permutation_refl.
  - destruct (le (fst c) (fst c')).
    + apply Permutation_refl.
    + eapply perm_trans; [apply perm_swap|]. now apply perm_skip.
Qed.

Lemma order_by_distance_perm (l : list candidate) :
  Permutation l (order_by_distance l).
Proof.
  induction l as [|c l IH]; cbn.
  - apply perm_nil.
  - eapply perm_trans; [|apply insert_by_distance_perm]. now apply perm_skip.
Qed.

Lemma insert_by_distance_sorted (c : candidate) (l : list candidate) :
  StronglySorted key_le l -> StronglySorted key_le (insert_by_distance c l).
Proof.
  induction 1 as [|c' l Hl IH Hall]; cbn.
  - constructor; constructor.
  - destruct (le (fst c) (fst c')) eqn:E.
    + constructor.
      * now constructor.
      * constructor; [exact E|].
        eapply Forall_impl; [|exact Hall].
        intros c'' H. unfold key_le in *. eapply le_trans; eassumption.
    + constructor; [exact IH|].
      eapply Permutation_Forall; [apply insert_by_distance_perm|].
      constructor; [|exact Hall].
      now apply le_false_flip.
Qed.

Lemma order_by_distance_sorted (l : list candidate) :
  StronglySorted key_le (order_by_distance l).
Proof.
  induction l as [|c l IH]; cbn.
  - constructor.
  - now apply insert_by_distance_sorted.
Qed.

Lemma order_by_distance_length (l : list candidate) :
  length (order_by_distance l) = length l.
Proof.
  symmetry. apply Permutation_length, order_by_distance_perm.
Qed.

End OrderBy.

(** ** Generic list facts *)

Section ListFacts.

Variables (A B : Type).


Lemma In_firstn' (x : A) (n : nat) (l : list A) :
  In x (firstn n l) -> In x l.
Proof.
  revert n. induction l as [|a l IH]; intros [|n]; cbn; try tauto.
  intros [H|H]; [now left | right; eauto].
Qed.



End ListFacts.

(** ** The scan of [match_documents] *)

Section Scan.

Import Float8 PgVector VectorIndex.

Lemma from_scan_cons (d : mcs_document) (docs : list mcs_document) (q : vector)
    (th : float8) (c : candidate) :
  from_scan docs q th c -> from_scan (d :: docs) q th c.
Proof.
  intros (d' & e & Hin & H). exists d', e. split; [now right | exact H].
Qed.

Lemma scan_spec (docs : list mcs_document) (q : vector) (th : float8) :
  forall cs, scan docs q th = Ok cs -> Forall (from_scan docs q th) cs.
Proof.
  induction docs as [|d docs IH]; cbn; intros cs H.
  - injection H as <-. constructor.
  - destruct (doc_embedding d) as [e|] eqn:He.
    + destruct (cosine_distance e q) as [dist|err] eqn:Hd; cbn in H;
        [|discriminate].
      destruct (scan docs q th) as [rest|err] eqn:Hs; cbn in H;
        [|discriminate].
      specialize (IH rest eq_refl).
      assert (Hrest : Forall (from_scan (d :: docs) q th) rest).
      { eapply Forall_impl; [|exact IH]. intros c. apply from_scan_cons. }
      cbv zeta in H.
      destruct (gt (sub one dist) th) eqn:Hgt; injection H as <-.
      * constructor; [|exact Hrest].
        exists d, e. cbn. repeat split; auto.
      * exact Hrest.
    + eapply Forall_impl; [|apply (IH cs H)].
      intros c. apply from_scan_cons.
Qed.


End Scan.

(** ** Evaluating the operator on the sample vectors *)

Section SampleVectors.

Import Float8 PgVector VectorIndex Samples.
Local Open Scope R_scope.

Lemma dot_zeros_l (n : nat) (b : vector) : dot (repeat 0 n) b = 0.
Proof.
  revert b. induction n as [|n IH]; intros [|y b]; cbn; try reflexivity.
  rewrite IH. lra.
Qed.

Lemma norm2_unit_vector : norm2 unit_vector = 1.
Proof.
  unfold norm2, unit_vector. cbn [dot]. rewrite dot_zeros_l. lra.
Qed.

Lemma norm2_zero_vector : norm2 zero_vector = 0.
Proof. apply dot_zeros_l. Qed.

Lemma length_unit_vector : length unit_vector = embedding_dims.
Proof. reflexivity. Qed.

Lemma length_zero_vector : length zero_vector = embedding_dims.
Proof. reflexivity. Qed.

Lemma float4_overflow_gt_1 : 1 < float4_overflow.
Proof. unfold float4_overflow. apply IZR_lt. reflexivity. Qed.

Lemma float4_underflow_pos : 0 < float4_underflow.
Proof.
  unfold float4_underflow. apply Rinv_0_lt_compat.
  apply IZR_lt. reflexivity.
Qed.

Lemma float4_underflow_lt_1 : float4_underflow < 1.
Proof.
  unfold float4_underflow.
  assert (H : 1 < IZR (2 ^ 150)) by (apply IZR_lt; reflexivity).
  rewrite <- Rinv_1. apply Rinv_lt_contravar; lra.
Qed.

Lemma to_float4_0 : to_float4 0 = Finite 0.
Proof.
  pose proof float4_overflow_gt_1. pose proof float4_underflow_pos.
  unfold to_float4.
  destruct (Rle_dec float4_overflow 0); [lra|].
  destruct (Rle_dec 0 (- float4_overflow)); [lra|].
  rewrite Rabs_R0.
  destruct (Rle_dec 0 float4_underflow); [reflexivity|lra].
Qed.

Lemma to_float4_1 : to_float4 1 = Finite 1.
Proof.
  pose proof float4_overflow_gt_1. pose proof float4_underflow_lt_1.
  unfold to_float4.
  destruct (Rle_dec float4_overflow 1); [lra|].
  destruct (Rle_dec 1 (- float4_overflow)); [lra|].
  rewrite Rabs_R1.
  destruct (Rle_dec 1 float4_underflow); [lra|reflexivity].
Qed.

Lemma accumulate_zero (acc : fp) (x y : R) :
  settled acc -> x * y = 0 -> accumulate acc x y = acc.
Proof.
  intros Hs Hxy. unfold accumulate. rewrite Hxy, to_float4_0.
  destruct acc as [a| |]; try reflexivity.
  cbn in Hs. now rewrite Rplus_0_r.
Qed.

Lemma accumulate_products_zeros_l (acc : fp) (n : nat) (b : vector) :
  settled acc -> accumulate_products acc (repeat 0 n) b = acc.
Proof.
  intros Hs. revert b. induction n as [|n IH]; intros [|y b]; cbn;
    try reflexivity.
  rewrite accumulate_zero by (auto; lra). apply IH.
Qed.

Lemma accumulate_products_zeros_r (acc : fp) (a : vector) (n : nat) :
  settled acc -> accumulate_products acc a (repeat 0 n) = acc.
Proof.
  intros Hs. revert a. induction n as [|n IH]; intros [|x a]; cbn;
    try reflexivity.
  rewrite accumulate_zero by (auto; lra). apply IH.
Qed.

Lemma accumulate_unit_unit :
  accumulate_products (Finite 0) unit_vector unit_vector = Finite 1.
Proof.
  unfold unit_vector. cbn [accumulate_products].
  assert (H : accumulate (Finite 0) 1 1 = Finite 1).
  { unfold accumulate. rewrite Rmult_1_r, to_float4_1, Rplus_0_l.
    apply to_float4_1. }
  rewrite H. apply accumulate_products_zeros_l. exact to_float4_1.
Qed.

Lemma accumulate_zero_any (b : vector) :
  accumulate_products (Finite 0) zero_vector b = Finite 0.
Proof. apply accumulate_products_zeros_l. exact to_float4_0. Qed.

Lemma cosine_distance_unit_unit :
  cosine_distance unit_vector unit_vector = Ok (Num 0).
Proof.
  unfold cosine_distance. rewrite length_unit_vector, Nat.eqb_refl.
  unfold cosine_similarity. rewrite accumulate_unit_unit.
  cbn [fp_mul fp_sqrt]. rewrite Rmult_1_r.
  destruct (Rlt_dec 1 0) as [E|_]; [lra|].
  cbn [fp_div]. rewrite sqrt_1.
  destruct (Req_dec_T 1 0) as [E|_]; [lra|].
  cbn [keep_in_range].
  destruct (Rlt_dec 1 (1 / 1)) as [E|_]; [lra|].
  destruct (Rlt_dec (1 / 1) (-1)) as [E|_]; [lra|].
  rewrite sub_one_num. do 2 f_equal. field.
Qed.

Lemma cosine_distance_zero_unit :
  cosine_distance zero_vector unit_vector = Ok NaN.
Proof.
  unfold cosine_distance.
  rewrite length_zero_vector, length_unit_vector, Nat.eqb_refl.
  unfold cosine_similarity.
  rewrite !accumulate_zero_any, accumulate_unit_unit.
  cbn [fp_mul fp_sqrt]. rewrite Rmult_0_l.
  destruct (Rlt_dec 0 0) as [E|_]; [lra|].
  cbn [fp_div]. rewrite sqrt_0.
  destruct (Req_dec_T 0 0) as [_|E]; [reflexivity|lra].
Qed.

(** A vector that is not zero and whose squared norm leaves the range of
    single precision: every sum overflows, and the quotient is
    [infinity / infinity]. *)
Lemma norm2_huge_vector : norm2 huge_vector = IZR (2 ^ 140).
Proof.
  unfold norm2, huge_vector. cbn [dot]. rewrite dot_zeros_l.
  rewrite <- mult_IZR, Rplus_0_r. reflexivity.
Qed.

Lemma length_huge_vector : length huge_vector = embedding_dims.
Proof. reflexivity. Qed.

Lemma accumulate_huge_huge :
  accumulate_products (Finite 0) huge_vector huge_vector = Infinity false.
Proof.
  unfold huge_vector. cbn [accumulate_products].
  assert (H : accumulate (Finite 0) (IZR (2 ^ 70)) (IZR (2 ^ 70))
              = Infinity false).
  { unfold accumulate, to_float4. rewrite <- mult_IZR.
    destruct (Rle_dec float4_overflow (IZR (2 ^ 70 * 2 ^ 70))) as [_|E];
      [reflexivity|].
    exfalso. apply E. unfold float4_overflow. apply IZR_le. discriminate. }
  rewrite H. apply accumulate_products_zeros_l. exact I.
Qed.

Lemma cosine_distance_huge_huge :
  cosine_distance huge_vector huge_vector = Ok NaN.
Proof.
  unfold cosine_distance. rewrite length_huge_vector, Nat.eqb_refl.
  unfold cosine_similarity. rewrite accumulate_huge_huge. reflexivity.
Qed.

Lemma gt_unit_half : gt (sub one (Num 0)) half = true.
Proof. unfold half. rewrite sub_one_num. apply gt_num. lra. Qed.

Lemma build_mixed_table_ok : build_mixed_table = Ok mixed_table.
Proof. reflexivity. Qed.

Lemma scan_unit_table :
  scan (rows unit_table) unit_vector half = Ok [(Num 0, unit_match)].
Proof.
  cbn [scan rows unit_table unit_doc doc_embedding].
  rewrite cosine_distance_unit_unit. cbn [bind].
  rewrite gt_unit_half. reflexivity.
Qed.

Lemma scan_mixed_table :
  scan (rows mixed_table) unit_vector half
  = Ok [(Num 0, unit_match); (NaN, zero_match)].
Proof.
  cbn [scan rows mixed_table unit_doc zero_doc doc_embedding].
  rewrite cosine_distance_unit_unit, cosine_distance_zero_unit. cbn [bind].
  rewrite gt_unit_half. reflexivity.
Qed.

Lemma match_documents_unit_table :
  match_documents unit_table unit_vector half 3 = Ok [unit_match].
Proof.
  unfold match_documents. cbn [Z.ltb Z.eqb Z.compare].
  rewrite scan_unit_table. reflexivity.
Qed.

Lemma match_documents_mixed_table :
  match_documents mixed_table unit_vector half 3
  = Ok [unit_match; zero_match].
Proof.
  unfold match_documents. cbn [Z.ltb Z.eqb Z.compare].
  rewrite scan_mixed_table. reflexivity.
Qed.


Lemma reachable_mixed_table : reachable mixed_table.
Proof.
  eapply reachable_insert with
    (t := {| rows := [unit_doc]; next_id := 2 |})
    (c := "section 2"%string) (m := None) (e := Some zero_vector)
    (now := 0%Z); [|reflexivity].
  eapply reachable_insert with
    (t := empty_table) (c := "section 1"%string) (m := None)
    (e := Some unit_vector) (now := 0%Z); [|reflexivity].
  constructor.
Qed.

Lemma reachable_huge_table : reachable huge_table.
Proof.
  eapply reachable_insert with
    (t := empty_table) (c := "section 1"%string) (m := None)
    (e := Some huge_vector) (now := 0%Z); [|reflexivity].
  constructor.
Qed.

Lemma in_index_unit_doc : in_index unit_doc = true.
Proof.
  unfold in_index. cbn [doc_embedding unit_doc].
  rewrite norm2_unit_vector. destruct (Req_dec_T 1 0); [lra|reflexivity].
Qed.

Lemma in_index_zero_doc : in_index zero_doc = false.
Proof.
  unfold in_index. cbn [doc_embedding zero_doc].
  rewrite norm2_zero_vector. destruct (Req_dec_T 0 0); [reflexivity|lra].
Qed.

Lemma in_index_huge_doc : in_index huge_doc = true.
Proof.
  unfold in_index. cbn [doc_embedding huge_doc].
  rewrite norm2_huge_vector.
  destruct (Req_dec_T (IZR (2 ^ 140)) 0) as [E|_]; [|reflexivity].
  apply eq_IZR in E. discriminate E.
Qed.

Lemma match_documents_huge_table :
  match_documents huge_table huge_vector half 3 = Ok [huge_match].
Proof.
  unfold match_documents. cbn [Z.ltb Z.eqb Z.compare].
  cbn [scan rows huge_table huge_doc doc_embedding].
  rewrite cosine_distance_huge_huge. reflexivity.
Qed.

(** The vector with the entry [2^70], stored and searched: its row comes
    back with similarity NaN, whatever the access path. *)
Lemma match_documents_via_huge_table :
  match_documents_via SeqScan huge_table huge_vector half 3
  = Ok [huge_match] /\
  match_documents_via (IndexScan (fun _ => true)) huge_table huge_vector
    half 3 = Ok [huge_match].
Proof.
  split; [exact match_documents_huge_table|].
  cbn [match_documents_via Z.ltb Z.eqb Z.compare].
  rewrite length_huge_vector, Nat.eqb_refl.
  unfold index_scan_rows. cbn [rows huge_table filter].
  rewrite in_index_huge_doc. cbn [andb].
  exact match_documents_huge_table.
Qed.

(** The two access paths on the table with a zero embedding: the
    sequential scan returns its row after the matching one, with similarity
    [NaN]; the index does not hold it. *)
Lemma match_documents_via_mixed_table :
  match_documents_via SeqScan mixed_table unit_vector half 3
  = Ok [unit_match; zero_match] /\
  match_documents_via (IndexScan (fun _ => true)) mixed_table unit_vector
    half 3 = Ok [unit_match].
Proof.
  split; [exact match_documents_mixed_table|].
  cbn [match_documents_via Z.ltb Z.eqb Z.compare].
  rewrite length_unit_vector, Nat.eqb_refl.
  unfold index_scan_rows, match_documents.
  cbn [Z.ltb Z.eqb Z.compare rows mixed_table filter].
  rewrite in_index_unit_doc, in_index_zero_doc. cbn [andb].
  change (scan [unit_doc] unit_vector half)
    with (scan (rows unit_table) unit_vector half).
  rewrite scan_unit_table. reflexivity.
Qed.

End SampleVectors.

(** ** The result of [match_documents] *)

Section MatchDocuments.

Import Float8 PgVector VectorIndex Samples.
Local Open Scope R_scope.

(** A successful call returns a prefix of the candidates kept by the scan,
    sorted by distance. *)
Lemma match_documents_rows (t : mcs_documents) (q : vector) (th : float8) (k : Z)
    (res : list match_row) :
  match_documents t q th k = Ok res ->
  exists cs,
    (0 <= k)%Z /\ Forall (from_scan (rows t) q th) cs /\
    StronglySorted key_le cs /\
    res = firstn (Z.to_nat k) (map snd cs).
Proof.
  unfold match_documents. destruct (Z.ltb_spec k 0) as [Hk|Hk]; [easy|].
  destruct (Z.eqb_spec k 0) as [->|Hk0].
  { intros H. injection H as <-. exists []. repeat split; auto with zarith.
    constructor. }
  destruct (scan (rows t) q th) as [cs|e] eqn:Hs; cbn; [|easy].
  intros H. injection H as <-.
  exists (order_by_distance cs). repeat split; auto.
  - eapply Permutation_Forall; [apply order_by_distance_perm|].
    now apply scan_spec.
  - apply order_by_distance_sorted.
Qed.



End MatchDocuments.

(** ** The search contract *)

Section SearchContract.

Import Float8 PgVector VectorIndex Samples.
Local Open Scope R_scope.

Lemma in_firstn_map_snd (k : nat) (cs : list candidate) (m : match_row) :
  In m (firstn k (map snd cs)) -> exists c, In c cs /\ snd c = m.
Proof.
  intros H. apply In_firstn' in H. apply in_map_iff in H.
  destruct H as (c & Hc & Hin). eauto.
Qed.


Lemma reachable_dims (t : mcs_documents) :
  reachable t -> stored_dims t embedding_dims.
Proof.
  induction 1 as [|t t' c m e now Hr IH Hins].
  - intros d e [].
  - unfold insert_document in Hins.
    destruct e as [v|]; cbn [check_embedding] in Hins.
    + destruct (Nat.eqb_spec (length v) embedding_dims) as [Hv|Hv];
        cbn [bind] in Hins; [|discriminate].
      injection Hins as <-. intros d e Hin He. cbn [rows] in Hin.
      apply in_app_or in Hin. destruct Hin as [Hin|[<-|[]]].
      * eapply IH; eauto.
      * cbn in He. now injection He as <-.
    + cbn [bind] in Hins. injection Hins as <-.
      intros d e Hin He. cbn [rows] in Hin.
      apply in_app_or in Hin. destruct Hin as [Hin|[<-|[]]].
      * eapply IH; eauto.
      * discriminate.
Qed.

(** A query of another dimension is rejected as soon as the scan meets a
    stored embedding. *)
Lemma scan_rejects_dims (docs : list mcs_document) (q : vector) (th : float8)
    (n : nat) :
  (forall d e, In d docs -> doc_embedding d = Some e -> length e = n) ->
  (exists d e, In d docs /\ doc_embedding d = Some e) ->
  length q <> n ->
  scan docs q th = Err (DifferentVectorDimensions n (length q)).
Proof.
  induction docs as [|d docs IH]; intros Hdim (d0 & e0 & Hin & He0) Hq.
  - destruct Hin.
  - cbn [scan]. destruct (doc_embedding d) as [e|] eqn:He.
    + unfold cosine_distance. rewrite (Hdim d e (or_introl eq_refl) He).
      destruct (Nat.eqb_spec n (length q)) as [E|E]; [congruence|].
      reflexivity.
    + apply IH; auto.
      * intros; eapply Hdim; [right|]; eauto.
      * destruct Hin as [<-|Hin]; [congruence|eauto].
Qed.

(** The rows that a scan of the index visits are rows of the table. *)
Lemma index_scan_rows_incl (probed : mcs_document -> bool)
    (t : mcs_documents) (d : mcs_document) :
  In d (rows (index_scan_rows probed t)) -> In d (rows t).
Proof.
  unfold index_scan_rows. cbn [rows]. intros H.
  now apply filter_In in H.
Qed.

(** Whatever the access path, a successful call returns what the query
    returns on some of the rows of the table. *)
Lemma match_documents_via_rows (p : access_path) (t : mcs_documents)
    (q : vector) (th : float8) (k : Z) (res : list match_row) :
  match_documents_via p t q th k = Ok res ->
  exists t', incl (rows t') (rows t) /\ match_documents t' q th k = Ok res.
Proof.
  destruct p as [|probed]; cbn [match_documents_via].
  - intros H. exists t. split; [apply incl_refl | exact H].
  - destruct (Z.ltb_spec k 0) as [Hk|Hk]; [discriminate|].
    destruct (Z.eqb_spec k 0) as [->|Hk0].
    + intros H. exists t. split; [apply incl_refl | exact H].
    + destruct (Nat.eqb (length q) embedding_dims); [|discriminate].
      intros H. exists (index_scan_rows probed t).
      split; [|exact H]. intros d. apply index_scan_rows_incl.
Qed.


Lemma match_documents_via_zero (p : access_path) (t : mcs_documents)
    (q : vector) (th : float8) :
  match_documents_via p t q th 0 = Ok [].
Proof. destruct p; reflexivity. Qed.





Lemma int4_3 : int4 3.
Proof. unfold int4. lia. Qed.








(** C5, as amended.  An [INSERT] succeeds exactly when its embedding has 384
    dimensions (or is [NULL]), so every embedding stored by [INSERT]s has
    384 dimensions.  A search with a positive [match_count] (an [int]) and
    a query of another dimension fails with the dimension error: always
    when the index is scanned, and as soon as the table stores an embedding
    when the table is scanned.  A search with [match_count] 0 returns no
    rows and does not look at the query. *)
Theorem embedding_dimension_checks (p : access_path) (t : mcs_documents)
    (q : vector) (th : float8) (k : Z) :
  int4 k ->
  (forall c m v now,
     (exists t', insert_document t c m (Some v) now = Ok t') <->
     length v = embedding_dims) /\
  (reachable t -> stored_dims t embedding_dims) /\
  (reachable t ->
   (exists d e, In d (rows t) /\ doc_embedding d = Some e) ->
   length q <> embedding_dims -> (0 < k)%Z ->
   match_documents_via p t q th k
   = Err (DifferentVectorDimensions embedding_dims (length q))) /\
  (forall probed, length q <> embedding_dims -> (0 < k)%Z ->
   match_documents_via (IndexScan probed) t q th k
   = Err (DifferentVectorDimensions embedding_dims (length q))) /\
  match_documents_via p t q th 0 = Ok [].
Proof.
  intros _.
  assert (Hindex : forall probed, length q <> embedding_dims -> (0 < k)%Z ->
            match_documents_via (IndexScan probed) t q th k
            = Err (DifferentVectorDimensions embedding_dims (length q))).
  { intros probed Hq Hk. cbn [match_documents_via].
    destruct (Z.ltb_spec k 0) as [Hneg|_]; [lia|].
    destruct (Z.eqb_spec k 0) as [E|_]; [lia|].
    destruct (Nat.eqb_spec (length q) embedding_dims) as [E|_];
      [contradiction | reflexivity]. }
  split; [|split; [|split; [|split]]].
  - intros c m v now. unfold insert_document. cbn [check_embedding].
    destruct (Nat.eqb_spec (length v) embedding_dims) as [E|E]; cbn [bind].
    + split; [intros _; exact E | eauto].
    + split; [intros [t' H]; discriminate H | contradiction].
  - apply reachable_dims.
  - intros Hr Hsome Hq Hk. destruct p as [|probed]; [|now apply Hindex].
    cbn [match_documents_via]. unfold match_documents.
    destruct (Z.ltb_spec k 0) as [Hneg|_]; [lia|].
    destruct (Z.eqb_spec k 0) as [E|_]; [lia|].
    now rewrite (scan_rejects_dims (rows t) q th (reachable_dims Hr) Hsome
                   Hq).
  - exact Hindex.
  - apply match_documents_via_zero.
Qed.

Lemma embedding_dimension_checks_witness :
  int4 3 /\ reachable mixed_table /\
  length short_vector <> embedding_dims /\
  match_documents_via SeqScan mixed_table short_vector half 3
  = Err (DifferentVectorDimensions embedding_dims 3) /\
  match_documents_via (IndexScan (fun _ => true)) empty_table short_vector
    half 3 = Err (DifferentVectorDimensions embedding_dims 3).
Proof.
  split; [exact int4_3|]. split; [exact reachable_mixed_table|].
  split; [discriminate|]. split.
  - apply (@embedding_dimension_checks SeqScan mixed_table short_vector half
             3 int4_3).
    + exact reachable_mixed_table.
    + exists unit_doc, unit_vector. split; [now left | reflexivity].
    + discriminate.
    + lia.
  - apply (@embedding_dimension_checks SeqScan empty_table short_vector half
             3 int4_3).
    + discriminate.
    + lia.
Defined.

(** C5 as stated fails: with [match_count] 0 a query of three dimensions
    is accepted, whatever the access path, on a table that stores
    embeddings of 384 dimensions. *)
Lemma embedding_dimension_checks_counterexample :
  length short_vector <> embedding_dims /\
  match_documents_via SeqScan mixed_table short_vector half 0 = Ok [] /\
  match_documents_via (IndexScan (fun _ => true)) mixed_table short_vector
    half 0 = Ok [].
Proof.
  split; [discriminate|]. split; reflexivity.
Qed.

(** The similarity that the operator computes is NaN or a number kept in
    [[-1, 1]]. *)
Lemma cosine_similarity_range (a b : vector) :
  cosine_similarity a b = NaN \/
  exists s, cosine_similarity a b = Num s /\ -1 <= s <= 1.
Proof.
  unfold cosine_similarity.
  destruct (fp_div _ _) as [x|[|]|]; cbn [keep_in_range]; auto.
  - right. destruct (Rlt_dec 1 x); [exists 1; split; [reflexivity|lra]|].
    destruct (Rlt_dec x (-1)); [exists (-1); split; [reflexivity|lra]|].
    exists x. split; [reflexivity|lra].
  - right. exists (-1). split; [reflexivity|lra].
  - right. exists 1. split; [reflexivity|lra].
Qed.

(** C6, as amended.  The similarity attached to a returned match is 1 minus
    the cosine distance between the stored embedding of the matched row and
    the query, and it is either NaN or a number between -1 and 1, whatever
    the access path. *)
Theorem similarity_range (p : access_path) (t : mcs_documents) (q : vector)
    (th : float8) (k : Z) (res : list match_row) (m : match_row) :
  match_documents_via p t q th k = Ok res -> In m res ->
  exists d e dist,
    In d (rows t) /\ doc_embedding d = Some e /\ id m = doc_id d /\
    cosine_distance e q = Ok dist /\ similarity m = sub one dist /\
    (similarity m = NaN \/
     exists s, similarity m = Num s /\ -1 <= s <= 1).
Proof.
  intros Hvia Hin.
  destruct (match_documents_via_rows _ _ _ _ _ Hvia) as (t' & Hincl & H).
  destruct (match_documents_rows _ _ _ _ H) as (cs & _ & Hfrom & _ & ->).
  apply in_firstn_map_snd in Hin. destruct Hin as (c & Hc & <-).
  rewrite Forall_forall in Hfrom.
  destruct (Hfrom c Hc) as (d & e & Hd & He & Hdist & Hsim & _ & Hid & _).
  exists d, e, (fst c). repeat split; auto.
  rewrite Hsim. unfold cosine_distance in Hdist.
  destruct (Nat.eqb _ _); [|discriminate].
  injection Hdist as <-.
  destruct (cosine_similarity_range e q) as [->|(s & -> & Hs)].
  - now left.
  - right. rewrite !sub_one_num. eexists. split; [reflexivity|]. lra.
Qed.

Lemma similarity_range_witness :
  match_documents_via SeqScan unit_table unit_vector half 3
  = Ok [unit_match] /\
  exists s, similarity unit_match = Num s /\ -1 <= s <= 1.
Proof.
  split; [exact match_documents_unit_table|].
  destruct (@similarity_range SeqScan unit_table unit_vector half 3
              [unit_match] unit_match match_documents_unit_table
              (or_introl eq_refl))
    as (d & e & dist & _ & _ & _ & _ & _ & [Hnan|Hnum]).
  - discriminate Hnan.
  - exact Hnum.
Defined.

(** C6 as stated fails: the stored vector and the query are the same vector,
    which is not zero, and the match comes back with similarity NaN,
    whatever the access path. *)
Lemma similarity_range_counterexample :
  norm2 huge_vector <> 0 /\
  match_documents_via SeqScan huge_table huge_vector half 3
  = Ok [huge_match] /\
  match_documents_via (IndexScan (fun _ => true)) huge_table huge_vector
    half 3 = Ok [huge_match] /\
  ~ (exists s, similarity huge_match = Num s /\ -1 <= s <= 1).
Proof.
  split.
  { rewrite norm2_huge_vector. intros E. apply eq_IZR in E. discriminate E. }
  split; [apply match_documents_via_huge_table|].
  split; [apply match_documents_via_huge_table|].
  intros (s & Hs & _). discriminate Hs.
Qed.

(** C9.  The arguments [match_threshold] and [match_count] that a call
    leaves out take the values 0.5 and 3, the defaults of [retrieve]. *)
Theorem match_documents_defaults (t : mcs_documents) (q : vector) (th : float8)
    (k : Z) :
  match_documents_call t q None None
  = match_documents t q Retriever.default_threshold Retriever.default_top_k
  /\ match_documents_call t q (Some th) None
     = match_documents t q th Retriever.default_top_k
  /\ match_documents_call t q None (Some k)
     = match_documents t q Retriever.default_threshold k
  /\ Retriever.default_threshold = Num (5 / 10)
  /\ Retriever.default_top_k = 3%Z.
Proof.
  repeat split.
Qed.

End SearchContract.

(** ** Chunking *)

Section Chunking.

Import Chunker.

Lemma ceil_div_step (a b : nat) :
  b <> 0 -> ceil_div (a + b) b = S (ceil_div a b).
Proof.
  intros Hb. unfold ceil_div.
  replace (a + b + b - 1) with (a + b - 1 + 1 * b) by lia.
  rewrite Nat.div_add by exact Hb. lia.
Qed.

Lemma ceil_div_one (a b : nat) : 1 <= a <= b -> ceil_div a b = 1.
Proof.
  intros H. unfold ceil_div. symmetry.
  apply Nat.div_unique with (a - 1); lia.
Qed.

Lemma ceil_div_gt (a b m : nat) : b <> 0 -> m < ceil_div a b -> m * b < a.
Proof.
  unfold ceil_div. intros Hb H.
  assert (Hm : S m * b <= a + b - 1).
  { etransitivity; [apply Nat.mul_le_mono_r, H|].
    rewrite Nat.mul_comm. apply Nat.Div0.mul_div_le. }
  lia.
Qed.

Section Loop.

Variables chunk_size overlap : nat.
Hypothesis Hov : overlap < chunk_size.

Let step : nat := chunk_size - overlap.

(** With fuel for every word, the loop makes the stated number of chunks
    and cuts chunk [i] at offset [i * step]. *)
Lemma chunk_loop_spec (fuel : nat) :
  forall words,
    words <> [] -> length words <= fuel ->
    length (chunk_loop fuel chunk_size step words)
    = expected_chunks (length words) chunk_size overlap /\
    forall i, i < expected_chunks (length words) chunk_size overlap ->
      nth i (chunk_loop fuel chunk_size step words) []
      = firstn chunk_size (skipn (i * step) words).
Proof.
  induction fuel as [|fuel IH]; intros words Hne Hlen.
  - destruct words; [congruence | cbn in Hlen; lia].
  - cbn [chunk_loop]. unfold expected_chunks.
    destruct (Nat.leb_spec (length words) chunk_size) as [Hle|Hgt].
    + split; [reflexivity|].
      intros i Hi. replace i with 0 by lia. reflexivity.
    + set (rest := skipn step words).
      assert (Hrest : length rest = length words - step)
        by apply length_skipn.
      assert (Hne' : rest <> []).
      { intros E. rewrite E in Hrest. cbn in Hrest. subst step. lia. }
      assert (Hlen' : length rest <= fuel) by (subst step; lia).
      destruct (IH rest Hne' Hlen') as [Hcount Hnth].
      assert (Hexp : ceil_div (length words - overlap) step
                     = S (expected_chunks (length rest) chunk_size
                            overlap)).
      { replace (length words - overlap)
          with (length rest - overlap + step) by (subst step; lia).
        rewrite ceil_div_step by (subst step; lia). f_equal.
        unfold expected_chunks.
        destruct (Nat.leb_spec (length rest) chunk_size) as [Hle'|Hgt'].
        - apply ceil_div_one. subst step. lia.
        - reflexivity. }
      fold step. rewrite Hexp. split.
      * cbn [length]. now rewrite Hcount.
      * intros [|i] Hi; [reflexivity|].
        cbn [nth]. rewrite Hnth by lia.
        unfold rest. rewrite skipn_skipn. f_equal. f_equal. lia.
Qed.

Lemma chunk_loop_nonempty (fuel : nat) :
  forall words,
    words <> [] ->
    Forall (fun c => c <> []) (chunk_loop fuel chunk_size step words).
Proof.
  induction fuel as [|fuel IH]; intros words Hne; cbn [chunk_loop].
  - constructor.
  - constructor.
    + destruct words as [|w words]; [congruence|].
      destruct chunk_size; [lia | discriminate].
    + destruct (Nat.leb_spec (length words) chunk_size) as [Hle|Hgt].
      * constructor.
      * apply IH. intros E.
        pose proof (length_skipn step words) as Hs.
        rewrite E in Hs. cbn in Hs. subst step. lia.
Qed.

(** Two neighbours: the first is full, and its last [overlap] words are
    the first [overlap] words of the second. *)
Lemma chunk_neighbours (words : list string) (i : nat) :
  S i < expected_chunks (length words) chunk_size overlap ->
  let c := firstn chunk_size (skipn (i * step) words) in
  let c' := firstn chunk_size (skipn (S i * step) words) in
  length c = chunk_size /\
  skipn step c = firstn overlap c' /\
  length (firstn overlap c') = overlap.
Proof.
  unfold expected_chunks.
  destruct (Nat.leb_spec (length words) chunk_size) as [Hle|Hgt];
    [lia|].
  fold step. intros Hi.
  apply ceil_div_gt in Hi; [|subst step; lia].
  assert (Hoff : S i * step + overlap < length words) by lia.
  cbn zeta. repeat split.
  - rewrite length_firstn, length_skipn. subst step. lia.
  - rewrite skipn_firstn_comm, skipn_skipn, firstn_firstn.
    replace (chunk_size - step) with overlap by (subst step; lia).
    replace (step + i * step) with (S i * step) by lia.
    now rewrite Nat.min_l by lia.
  - rewrite firstn_firstn, length_firstn, length_skipn. lia.
Qed.

End Loop.

End Chunking.

Section ChunkerContract.

Import Chunker.

(** C2, as amended.  For a text of N >= 1 words chunked with
    [chunk_size = 500] and [overlap = 50], the chunker produces
    [ceil ((N - 50) / 450)] chunks when N > 500 and one chunk otherwise;
    chunk [i] is cut at word offset [i * 450]; every chunk is non-empty;
    and of two consecutive chunks the first has 500 words, the last 50 of
    which are the first 50 of the second.  A text without words has no
    chunk. *)
Theorem chunk_default_spec (text : string) :
  (split_words text = [] ->
   chunk text default_chunk_size default_overlap = inr []) /\
  (split_words text <> [] ->
   exists chunks,
     chunk text default_chunk_size default_overlap = inr chunks /\
     length chunks
     = (if length (split_words text) <=? 500 then 1
        else ceil_div (length (split_words text) - 50) 450) /\
     (forall i, i < length chunks ->
        nth i chunks [] = firstn 500 (skipn (i * 450) (split_words text))) /\
     Forall (fun c => c <> []) chunks /\
     (forall i, S i < length chunks ->
        length (nth i chunks []) = 500 /\
        skipn 450 (nth i chunks []) = firstn 50 (nth (S i) chunks []) /\
        length (firstn 50 (nth (S i) chunks [])) = 50)).
Proof.
  unfold chunk, default_chunk_size, default_overlap.
  set (words := split_words text). split.
  - intros ->. reflexivity.
  - intros Hne.
    assert (Hov : 50 < 500) by lia.
    destruct (chunk_loop_spec Hov (fuel := length words) Hne (le_n _))
      as [Hcount Hnth].
    pose proof (chunk_loop_nonempty Hov (length words) Hne) as Hnon.
    change (500 - 50) with 450 in *.
    exists (chunk_loop (length words) 500 450 words).
    split; [destruct words; [congruence | reflexivity]|].
    split; [exact Hcount|].
    split; [intros i Hi; apply Hnth; now rewrite <- Hcount|].
    split; [exact Hnon|].
    intros i Hi. rewrite Hcount in Hi.
    rewrite !Hnth by lia.
    exact (chunk_neighbours Hov words Hi).
Qed.

Lemma chunk_default_spec_witness :
  split_words "the society shall  register" <> [] /\
  exists chunks,
    chunk "the society shall  register" default_chunk_size default_overlap
    = inr chunks /\
    length chunks = 1 /\ Forall (fun c => c <> []) chunks.
Proof.
  assert (Hne : split_words "the society shall  register" <> [])
    by discriminate.
  split; [exact Hne|].
  destruct (proj2 (chunk_default_spec "the society shall  register") Hne)
    as (chunks & H & Hlen & _ & Hnon & _).
  exists chunks. split; [exact H|]. split; [exact Hlen | exact Hnon].
Defined.

(** The end-to-end scenario of the specification: 1200 words make three
    chunks. *)
Example chunk_1200_words :
  option_map (@length _)
    (match chunk_words (repeat "w"%string 1200) 500 50 with
     | inr chunks => Some chunks
     | inl _ => None
     end) = Some 3.
Proof. vm_compute. reflexivity. Qed.

(** C2 as stated fails on the text without words: it cannot have exactly
    one chunk when every chunk is non-empty. *)
Lemma chunk_default_spec_counterexample :
  length (split_words "") = 0 /\
  ~ (exists chunks,
       chunk "" default_chunk_size default_overlap = inr chunks /\
       length chunks = 1 /\ Forall (fun c => c <> []) chunks).
Proof.
  split; [reflexivity|].
  intros (chunks & H & Hlen & _). cbv in H. injection H as <-.
  discriminate Hlen.
Qed.

(** Whatever the chunker, a chunk cut out of no words is empty. *)
Lemma no_chunk_of_nothing (c : list string) (i n : nat) :
  c = firstn n (skipn i (split_words "")) -> c = [].
Proof.
  intros ->. change (split_words "") with (@nil string).
  now rewrite skipn_nil, firstn_nil.
Qed.

End ChunkerContract.

(** ** Model failover *)

Section Failover.

Import AnswerGenerator.

Variable complete : model -> string -> completion.

(** Two rounds are enough: the state that [drive] returns is terminal. *)
Lemma drive_terminal (prompt : string) :
  next_model (fst (drive complete 2 TRY_PRIMARY prompt [])) = None.
Proof.
  cbn [drive next_model].
  destruct (complete Primary prompt); cbn [step next_model fst];
    [reflexivity|].
  destruct (complete Fallback prompt); reflexivity.
Qed.

Lemma generate_primary_ok (question text : string)
    (matches : list retrieved_match) :
  complete Primary (build_prompt question matches) = Completed text ->
  generate complete question matches
  = (inr {| answer := text; citations := map match_citation matches;
            model_used := Primary |}, [Primary]).
Proof.
  intros H. unfold generate. cbn [drive next_model]. rewrite H.
  reflexivity.
Qed.

(** C3.  When the primary completion call fails, [generate] calls the
    fallback model exactly once; if that call succeeds the result carries
    its text with [model_used = Fallback]; if it fails too, the call fails
    with [BothModelsUnavailableError] and returns no answer. *)
Theorem generate_failover (question : string)
    (matches : list retrieved_match) (f : failure) :
  complete Primary (build_prompt question matches) = Failed f ->
  let prompt := build_prompt question matches in
  let (res, calls) := generate complete question matches in
  calls = [Primary; Fallback] /\
  count_occ model_eq_dec calls Fallback = 1 /\
  (forall text, complete Fallback prompt = Completed text ->
     res = inr {| answer := text; citations := map match_citation matches;
                  model_used := Fallback |}) /\
  (forall f', complete Fallback prompt = Failed f' ->
     res = inl BothModelsUnavailableError).
Proof.
  intros H. unfold generate. cbn [drive next_model]. rewrite H.
  cbn [step next_model app].
  destruct (complete Fallback (build_prompt question matches)) as [t|f'];
    cbn [step]; (split; [reflexivity|]); (split; [reflexivity|]); split;
    intros ? E; try discriminate E; try reflexivity.
  now injection E as <-.
Qed.

End Failover.

Lemma generate_failover_witness :
  AnswerGenerator.primary_down AnswerGenerator.Primary
    (AnswerGenerator.build_prompt "May a member resign?" [])
  = AnswerGenerator.Failed AnswerGenerator.Timeout /\
  AnswerGenerator.generate AnswerGenerator.primary_down
    "May a member resign?" []
  = (inr {| AnswerGenerator.answer := "Section 9 applies.";
            AnswerGenerator.citations := [];
            AnswerGenerator.model_used := AnswerGenerator.Fallback |},
     [AnswerGenerator.Primary; AnswerGenerator.Fallback]).
Proof.
  split; [reflexivity|].
  pose proof (@generate_failover AnswerGenerator.primary_down
                "May a member resign?" [] AnswerGenerator.Timeout eq_refl)
    as H.
  cbv zeta in H.
  destruct (AnswerGenerator.generate AnswerGenerator.primary_down
              "May a member resign?" []) as [res calls].
  destruct H as (-> & _ & Hok & _).
  now rewrite (Hok "Section 9 applies."%string eq_refl).
Defined.

(** ** [sendMessage] *)

Section SendMessage.

Import Js Api.
Local Open Scope string_scope.

Lemma or_value_l (a b : value) : truthy_value a = true -> or_value a b = a.
Proof. unfold or_value. now intros ->. Qed.

Lemma or_value_r (a b : value) : truthy_value a = false -> or_value a b = b.
Proof. unfold or_value. now intros ->. Qed.

Lemma or_value_truthy_r (a b : value) :
  truthy_value b = true -> truthy_value (or_value a b) = true.
Proof.
  unfold or_value. destruct (truthy_value a) eqn:E; auto.
Qed.

(** The value chosen by [sendMessage] is truthy. *)
Lemma errorMessage_truthy (e : axios_error) :
  truthy_value (errorMessage e) = true.
Proof. unfold errorMessage. now apply or_value_truthy_r. Qed.


(** A truthy string is its own, non-empty, message. *)
Lemma new_Error_of_string (s : string) :
  truthy_value (VString s) = true ->
  message (new_Error_of (VString s)) = s /\ s <> "".
Proof. destruct s; cbn; [discriminate|]. intros _. split; congruence. Qed.

(** C8, as amended.  When the request fails, the caller of [sendMessage]
    receives an [Error] that carries a message and nothing else.  The
    message is the string form of the first truthy value among the [detail]
    of the response body, the [message] of the body, the message of the
    transport error and the fixed text: that value itself when it is a
    string, which is then not empty, and for instance [[object Object]]
    for a [detail] that is an array of one object and the empty string for
    a [detail] that is the empty array. *)
Theorem sendMessage_error (post : string -> axios_result)
    (question : string) (e : axios_error) :
  post question = Rejected e ->
  exists chosen,
    sendMessage post question = inl {| message := to_string chosen |} /\
    truthy_value chosen = true /\
    (truthy_value (response_detail e) = true ->
     chosen = response_detail e) /\
    (truthy_value (response_detail e) = false ->
     truthy_value (response_message e) = true ->
     chosen = response_message e) /\
    (truthy_value (response_detail e) = false ->
     truthy_value (response_message e) = false ->
     truthy_value (error_message e) = true -> chosen = error_message e) /\
    (truthy_value (response_detail e) = false ->
     truthy_value (response_message e) = false ->
     truthy_value (error_message e) = false ->
     chosen = VString "Failed to get response from server") /\
    (forall s, chosen = VString s -> to_string chosen = s /\ s <> "") /\
    (chosen = VArray [VObject] -> to_string chosen = "[object Object]") /\
    (chosen = VArray [] -> to_string chosen = "").
Proof.
  intros H. exists (errorMessage e).
  pose proof (errorMessage_truthy e) as Ht.
  unfold sendMessage. rewrite H.
  split.
  { f_equal. unfold new_Error_of.
    destruct (errorMessage e); try reflexivity. discriminate Ht. }
  split; [exact Ht|].
  split; [|split; [|split; [|split; [|split; [|split]]]]].
  - intros E1. unfold errorMessage.
    rewrite (@or_value_l (response_detail e) (response_message e) E1).
    rewrite (@or_value_l (response_detail e) (error_message e) E1).
    now rewrite or_value_l by exact E1.
  - intros E1 E2. unfold errorMessage.
    rewrite (@or_value_r (response_detail e) (response_message e) E1).
    rewrite (@or_value_l (response_message e) (error_message e) E2).
    now rewrite or_value_l by exact E2.
  - intros E1 E2 E3. unfold errorMessage.
    rewrite (@or_value_r (response_detail e) (response_message e) E1).
    rewrite (@or_value_r (response_message e) (error_message e) E2).
    now rewrite or_value_l by exact E3.
  - intros E1 E2 E3. unfold errorMessage.
    rewrite (@or_value_r (response_detail e) (response_message e) E1).
    rewrite (@or_value_r (response_message e) (error_message e) E2).
    now rewrite or_value_r by exact E3.
  - intros s Hs. rewrite Hs in Ht |- *. split; [reflexivity|].
    destruct s; [discriminate Ht | discriminate].
  - intros ->. reflexivity.
  - intros ->. reflexivity.
Qed.

Lemma sendMessage_error_witness :
  (fun _ : string => Rejected validation_422) "hello"
  = Rejected validation_422 /\
  sendMessage (fun _ => Rejected validation_422) "hello"
  = inl {| message := "[object Object]" |}.
Proof.
  split; [reflexivity|].
  destruct (@sendMessage_error (fun _ => Rejected validation_422) "hello"
              validation_422 eq_refl)
    as (chosen & H & _ & Hd & _ & _ & _ & _ & Hobj & _).
  rewrite H. rewrite (Hobj (Hd eq_refl)). reflexivity.
Defined.

(** C8 as stated fails: two failures of different kinds reach the caller
    as the same error. *)
Lemma sendMessage_error_counterexample :
  ~ (forall e e',
       kind_of e <> kind_of e' ->
       sendMessage (fun _ => Rejected e) "hello"
       <> sendMessage (fun _ => Rejected e') "hello").
Proof.
  intros H. apply (H unavailable_503 not_found_404).
  - discriminate.
  - reflexivity.
Qed.

End SendMessage.

(** ** The call sites of [handleSend] *)

Section CallSiteFacts.

Import Js Api ChatInterface ChatEvents CallSites.
Local Open Scope string_scope.

Lemma settle_appends_one (t_reply : Z) (outcome : Js.error + option chat_reply)
    (st : chat_state) :
  exists a,
    apply_eff (handleSend_settle t_reply outcome) st
    = (Normal tt,
       {| messages := messages st ++ [a]; inputText := inputText st;
          loading := false;
          error := error (snd (apply_eff (handleSend_settle t_reply outcome)
                                 st)) |}) /\
    msg_role a = assistant.
Proof.
  unfold apply_eff, handleSend_settle, try_catch_finally, seq, setError,
    setMessages, setLoading, update.
  destruct outcome as [e|[r|]]; cbn; eexists; split; reflexivity.
Qed.

Lemma may_send_guard (st : chat_state) :
  InputBox.may_send (input_props st)
  = negb (is_empty (trim (inputText st)) || loading st).
Proof.
  unfold InputBox.may_send, input_props, truthy.
  cbn [InputBox.value InputBox.disabled InputBox.loading].
  destruct (loading st), (is_empty (trim (inputText st))); reflexivity.
Qed.



End CallSiteFacts.

(** ** [handleSend] *)

Section HandleSend.

Import Js Api ChatInterface.
Local Open Scope string_scope.

Variable post : string -> axios_result.
Variables t_user t_reply : Z.

(** The guard: a blank input, or a request in flight, and the handler
    returns at once. *)
Lemma handleSend_guard (st : chat_state) :
  is_empty (trim (inputText st)) || loading st = true ->
  run_handleSend post t_user t_reply st
  = (Normal tt, {| ui := st; requests := [] |}).
Proof.
  intros H. unfold run_handleSend, handleSend. now rewrite H.
Qed.

Lemma is_empty_spec (s : string) : is_empty s = true <-> s = "".
Proof. destruct s; cbn; split; congruence. Qed.

(** [m || default] for a string [m]. *)
Lemma string_or_spec (m default : string) :
  string_or (Some m) default = if is_empty m then default else m.
Proof. unfold string_or, or, truthy. destruct m; reflexivity. Qed.


(** A question that is not blank reaches the embedder: the log of calls
    of [answer_question] starts with the embedding call. *)
Lemma answer_question_embeds
    (embed : string -> option PgVector.vector)
    (search : PgVector.vector -> Float8.float8 -> Z ->
              option (list AnswerGenerator.retrieved_match))
    (complete : AnswerGenerator.model -> string ->
                AnswerGenerator.completion)
    (question : string) :
  trim question <> "" ->
  exists calls,
    snd (QueryOrchestrator.answer_question embed search complete question)
    = QueryOrchestrator.EmbedCall question :: calls.
Proof.
  intros H. unfold QueryOrchestrator.answer_question,
    QueryOrchestrator.is_blank.
  destruct (is_empty (trim question)) eqn:E.
  { apply is_empty_spec in E. contradiction. }
  unfold QueryOrchestrator.retrieve.
  destruct (embed question) as [v|]; [|cbn; eauto].
  destruct (search v _ _) as [matches|]; [|cbn; eauto].
  destruct (AnswerGenerator.generate complete question matches)
    as [[err|r] models]; cbn; eauto.
Qed.


End HandleSend.

Section HandleSendExamples.

Import Js Api ChatInterface ChatEvents.
Local Open Scope string_scope.




End HandleSendExamples.

(** ** Concrete runs *)

Section Runs.

Import Js Api ChatInterface.
Local Open Scope string_scope.

Example split_words_run :
  Chunker.split_words "  Section 9:	member
rights " = ["Section"; "9:"; "member"; "rights"].
Proof. reflexivity. Qed.

Example chunk_counts :
  map (fun n =>
         match Chunker.chunk_words (repeat "w" n) 500 50 with
         | inr chunks => Some (length chunks)
         | inl _ => None
         end) [0; 1; 50; 500; 501; 950; 951; 1200]%nat
  = [Some 0; Some 1; Some 1; Some 1; Some 2; Some 2; Some 3; Some 3]%nat.
Proof. vm_compute. reflexivity. Qed.

Example chunk_rejects_overlap :
  Chunker.chunk "a b c" 50 50 = inl Chunker.ConfigurationError.
Proof. reflexivity. Qed.

Example trim_run : trim "  May a member resign?
" = "May a member resign?".
Proof. reflexivity. Qed.

Example generate_both_down :
  AnswerGenerator.generate
    (fun _ _ => AnswerGenerator.Failed AnswerGenerator.RateLimit)
    "May a member resign?" []
  = (inl AnswerGenerator.BothModelsUnavailableError,
     [AnswerGenerator.Primary; AnswerGenerator.Fallback]).
Proof. reflexivity. Qed.

Example handleSend_resolved :
  run_handleSend server_up 10 20 (fresh_state "hello ")
  = (Normal tt,
     {| ui := {| messages :=
                   [user_message "hello" 10;
                    {| msg_role := assistant;
                       content := Some "Section 9 applies.";
                       timestamp := 20; msg_sources := Some [];
                       isError := false |}];
                 inputText := ""; loading := false; error := None |};
        requests := ["hello"] |}).
Proof. reflexivity. Qed.

Example handleSend_rejected :
  run_handleSend server_down 10 20 (fresh_state "hello")
  = (Normal tt,
     {| ui := {| messages :=
                   [user_message "hello" 10;
                    {| msg_role := assistant;
                       content :=
                         Some "Sorry, I encountered an error: Network Error";
                       timestamp := 20; msg_sources := None;
                       isError := true |}];
                 inputText := ""; loading := false;
                 error := Some "Network Error" |};
        requests := ["hello"] |}).
Proof. reflexivity. Qed.

Example sendMessage_detail_first :
  sendMessage (fun _ => Rejected unavailable_503) "hello"
  = inl {| message := "Request failed" |}.
Proof. reflexivity. Qed.

Example sendMessage_object_detail :
  sendMessage (fun _ => Rejected validation_422) "hello"
  = inl {| message := "[object Object]" |}.
Proof. reflexivity. Qed.

Example sendMessage_empty_array_detail :
  sendMessage (fun _ => Rejected empty_detail_500) "hello"
  = inl {| message := "" |}.
Proof. reflexivity. Qed.

Example to_string_array :
  to_string (VArray [VString "a"; VNull; VArray [VNumber "1" false; VObject]])
  = "a,,1,[object Object]".
Proof. reflexivity. Qed.

Example handleSend_empty_message :
  run_handleSend (fun _ => Rejected empty_detail_500) 10 20
    (fresh_state "hello")
  = (Normal tt,
     {| ui := {| messages :=
                   [user_message "hello" 10;
                    {| msg_role := assistant;
                       content :=
                         Some "Sorry, I encountered an error: Failed to get response. Please check your connection and try again.";
                       timestamp := 20; msg_sources := None;
                       isError := true |}];
                 inputText := ""; loading := false;
                 error := Some "Failed to get response. Please try again." |};
        requests := ["hello"] |}).
Proof. reflexivity. Qed.

Example answer_question_blank :
  QueryOrchestrator.answer_question (fun _ => None) (fun _ _ _ => None)
    AnswerGenerator.primary_down "  "
  = (inl QueryOrchestrator.InvalidInputError, []).
Proof. reflexivity. Qed.

Example answer_question_not_blank :
  QueryOrchestrator.answer_question (fun _ => None) (fun _ _ _ => None)
    AnswerGenerator.primary_down " a "
  = (inl QueryOrchestrator.EmbeddingError,
     [QueryOrchestrator.EmbedCall " a "]).
Proof. reflexivity. Qed.

End Runs.

(* ================================================================== *)
(** * Part III. Further properties of the sources                      *)
(* ================================================================== *)

(** ** [mcs_documents]: what [INSERT]s keep *)

Section TableInvariants.

Import Float8 PgVector VectorIndex.
Local Open Scope Z_scope.

Lemma insert_document_rows (t t' : mcs_documents) (c : string)
    (m : option string) (e : option vector) (now : Z) :
  insert_document t c m e now = Ok t' ->
  rows t' = (rows t ++
             [{| doc_id := next_id t; doc_content := c; doc_metadata := m;
                 doc_embedding := e; doc_created_at := now |}])%list /\
  next_id t' = next_id t + 1 /\
  check_embedding e = Ok tt.
Proof.
  unfold insert_document.
  destruct (check_embedding e) as [[]|err]; cbn [bind]; [|discriminate].
  intros H. injection H as <-. auto.
Qed.

Lemma reachable_ids (t : mcs_documents) :
  reachable t ->
  NoDup (map doc_id (rows t)) /\
  Forall (fun d => 1 <= doc_id d < next_id t) (rows t).
Proof.
  induction 1 as [|t t' c m e now Hr [IHn IHb] Hins].
  - split; constructor.
  - destruct (insert_document_rows _ _ _ _ _ Hins) as (-> & -> & _).
    assert (Hpos : 1 <= next_id t).
    { clear - Hr. induction Hr as [|t t' c m e now Hr IH Hins];
        [cbn; lia|].
      destruct (insert_document_rows _ _ _ _ _ Hins) as (_ & -> & _). lia. }
    split.
    + rewrite map_app. cbn [map].
      apply NoDup_app_remove_l with (l := @nil Z). cbn [app].
      apply Permutation_NoDup with (l := next_id t :: map doc_id (rows t)).
      * apply Permutation_cons_append.
      * constructor; [|exact IHn].
        intros Hin. apply in_map_iff in Hin. destruct Hin as (d & Hd & Hin).
        rewrite Forall_forall in IHb. specialize (IHb d Hin). lia.
    + apply Forall_app. split.
      * eapply Forall_impl; [|exact IHb]. cbn. intros d Hd. lia.
      * constructor; [cbn; lia | constructor].
Qed.

(** X14.  What [INSERT]s keep.  An [INSERT] succeeds exactly when its
    embedding is [NULL] or has 384 dimensions, and it appends one row and
    leaves the others as they are; in every table built by [INSERT]s the
    stored embeddings have 384 dimensions and the [id]s are positive,
    pairwise distinct and below the next value of the sequence. *)
Theorem insert_invariants (t : mcs_documents) (c : string)
    (m : option string) (e : option vector) (now : Z) :
  ((exists t', insert_document t c m e now = Ok t') <->
   (forall v, e = Some v -> length v = embedding_dims)) /\
  (forall t', insert_document t c m e now = Ok t' ->
     exists d, rows t' = (rows t ++ [d])%list /\ doc_id d = next_id t /\
               doc_content d = c /\ doc_embedding d = e) /\
  (reachable t ->
     stored_dims t embedding_dims /\
     NoDup (map doc_id (rows t)) /\
     Forall (fun d => 1 <= doc_id d < next_id t) (rows t)).
Proof.
  split; [|split].
  - unfold insert_document. destruct e as [v|]; cbn [check_embedding].
    + destruct (Nat.eqb_spec (length v) embedding_dims) as [E|E];
        cbn [bind].
      * split; [intros _ v' [= <-]; exact E | eauto].
      * split; [intros [t' H]; discriminate H|].
        intros H. exfalso. apply E. now apply H.
    + cbn [bind]. split; [intros _ v [=] | eauto].
  - intros t' H. destruct (insert_document_rows _ _ _ _ _ H) as (-> & _ & _).
    eexists. split; [reflexivity|]. cbn. auto.
  - intros Hr. split; [now apply reachable_dims | now apply reachable_ids].
Qed.

End TableInvariants.

(** ** [match_documents]: which rows come back *)

Section ReturnedRows.

Import Float8 PgVector VectorIndex Samples.

Lemma scan_ids (docs : list mcs_document) (q : vector) (th : float8) :
  forall cs, scan docs q th = Ok cs ->
  incl (map (fun c => id (snd c)) cs) (map doc_id docs) /\
  (NoDup (map doc_id docs) -> NoDup (map (fun c => id (snd c)) cs)).
Proof.
  induction docs as [|d0 docs IH]; intros cs Hs.
  - injection Hs as <-. split; [intros x [] | constructor].
  - cbn [scan] in Hs. destruct (doc_embedding d0) as [e0|] eqn:He0.
    + destruct (cosine_distance e0 q) as [dist0|err]; cbn [bind] in Hs;
        [|discriminate].
      destruct (scan docs q th) as [rest|err]; cbn [bind] in Hs;
        [|discriminate].
      cbv zeta in Hs. destruct (IH rest eq_refl) as [Hincl Hnd].
      destruct (gt (sub one dist0) th); injection Hs as <-; cbn [map].
      * split.
        -- intros x [<-|Hx]; [now left | right; now apply Hincl].
        -- intros Hn. inversion Hn as [|? ? Hnotin Hn']; subst.
           constructor; [|now apply Hnd].
           intros Hin. apply Hnotin. now apply Hincl.
      * split.
        -- intros x Hx. right. now apply Hincl.
        -- intros Hn. inversion Hn; subst. now apply Hnd.
    + destruct (IH cs Hs) as [Hincl Hnd]. split.
      * intros x Hx. right. now apply Hincl.
      * intros Hn. inversion Hn; subst. now apply Hnd.
Qed.

Lemma NoDup_firstn (A : Type) (n : nat) (l : list A) :
  NoDup l -> NoDup (firstn n l).
Proof.
  intros H. revert n. induction H as [|a l Hnotin Hl IH]; intros [|n]; cbn;
    try constructor.
  - intros Hin. apply Hnotin. eapply In_firstn'; eauto.
  - apply IH.
Qed.

(** The plan of a successful call: nothing for [LIMIT 0]; otherwise the
    sorted candidates and the cut. *)
Lemma match_documents_plan (t : mcs_documents) (q : vector) (th : float8)
    (k : Z) (res : list match_row) :
  match_documents t q th k = Ok res ->
  (k = 0%Z /\ res = []) \/
  exists cs,
    (0 < k)%Z /\ scan (rows t) q th = Ok cs /\
    res = firstn (Z.to_nat k) (map snd (order_by_distance cs)).
Proof.
  unfold match_documents. destruct (Z.ltb_spec k 0) as [Hk|Hk]; [easy|].
  destruct (Z.eqb_spec k 0) as [->|Hk0].
  { intros H. injection H as <-. now left. }
  destruct (scan (rows t) q th) as [cs|e]; cbn [bind]; [|easy].
  intros H. injection H as <-. right. exists cs. repeat split. lia.
Qed.

(** X1.  Every row that [match_documents] returns is a row of the table
    with a non-NULL embedding of the query's dimension: it carries that
    row's [id], [content] and [metadata], and its similarity is 1 minus the
    distance between that embedding and the query. *)
Theorem match_documents_sound (t : mcs_documents) (q : vector) (th : float8)
    (k : Z) (res : list match_row) (m : match_row) :
  match_documents t q th k = Ok res -> In m res ->
  exists d e dist,
    In d (rows t) /\ doc_embedding d = Some e /\
    length e = length q /\
    cosine_distance e q = Ok dist /\
    similarity m = sub one dist /\
    id m = doc_id d /\ content m = doc_content d /\
    metadata m = doc_metadata d.
Proof.
  intros H Hin.
  destruct (match_documents_rows _ _ _ _ H) as (cs & _ & Hfrom & _ & ->).
  apply in_firstn_map_snd in Hin. destruct Hin as (c & Hc & <-).
  rewrite Forall_forall in Hfrom.
  destruct (Hfrom c Hc) as (d & e & Hd & He & Hdist & Hsim & _ & Hid & Hco
                            & Hme).
  exists d, e, (fst c). repeat split; auto.
  unfold cosine_distance in Hdist.
  destruct (Nat.eqb_spec (length e) (length q)); [assumption|discriminate].
Qed.

Lemma match_documents_sound_witness :
  match_documents unit_table unit_vector half 3 = Ok [unit_match] /\
  exists d, In d (rows unit_table) /\ id unit_match = doc_id d /\
            content unit_match = doc_content d.
Proof.
  split; [exact match_documents_unit_table|].
  destruct (@match_documents_sound unit_table unit_vector half 3
              [unit_match] unit_match match_documents_unit_table
              (or_introl eq_refl))
    as (d & e & dist & Hd & _ & _ & _ & _ & Hid & Hco & _).
  exists d. auto.
Defined.

(** X2.  On a table built by [INSERT]s no row is returned twice: the [id]s
    of the returned rows are pairwise distinct. *)
Theorem match_documents_distinct_ids (t : mcs_documents) (q : vector)
    (th : float8) (k : Z) (res : list match_row) :
  reachable t -> match_documents t q th k = Ok res ->
  NoDup (map id res).
Proof.
  intros Hr H.
  destruct (match_documents_plan _ _ _ _ H) as [[_ ->]|(cs & _ & Hs & ->)];
    [constructor|].
  rewrite <- firstn_map. apply NoDup_firstn.
  rewrite map_map.
  apply Permutation_NoDup with (l := map (fun c => id (snd c)) cs).
  - apply Permutation_map, order_by_distance_perm.
  - apply (scan_ids _ _ _ Hs). apply (reachable_ids Hr).
Qed.

Lemma match_documents_distinct_ids_witness :
  reachable mixed_table /\
  match_documents mixed_table unit_vector half 3
  = Ok [unit_match; zero_match] /\
  NoDup (map id [unit_match; zero_match]).
Proof.
  split; [exact reachable_mixed_table|].
  split; [exact match_documents_mixed_table|].
  exact (@match_documents_distinct_ids mixed_table unit_vector half 3
           [unit_match; zero_match] reachable_mixed_table
           match_documents_mixed_table).
Defined.

End ReturnedRows.

(** ** [match_documents]: a query of another dimension *)

Section WrongDimension.

Import Float8 PgVector VectorIndex Samples.
Local Open Scope R_scope.

(** X5.  On a table built by [INSERT]s that stores at least one embedding,
    a query whose dimension is not 384 makes every call with a positive
    [match_count] fail with the dimension error of the distance operator. *)
Theorem match_documents_wrong_dimension (t : mcs_documents) (q : vector)
    (th : float8) (k : Z) :
  reachable t ->
  (exists d e, In d (rows t) /\ doc_embedding d = Some e) ->
  length q <> embedding_dims -> (0 < k)%Z ->
  match_documents t q th k
  = Err (DifferentVectorDimensions embedding_dims (length q)).
Proof.
  intros Hr Hsome Hq Hk. unfold match_documents.
  destruct (Z.ltb_spec k 0) as [Hneg|_]; [lia|].
  destruct (Z.eqb_spec k 0) as [E|_]; [lia|].
  now rewrite (scan_rejects_dims (rows t) q th (reachable_dims Hr) Hsome Hq).
Qed.

Lemma match_documents_wrong_dimension_witness :
  reachable mixed_table /\ length short_vector <> embedding_dims /\
  match_documents mixed_table short_vector half 3
  = Err (DifferentVectorDimensions embedding_dims (length short_vector)).
Proof.
  split; [exact reachable_mixed_table|]. split; [discriminate|].
  apply (@match_documents_wrong_dimension mixed_table short_vector half 3
           reachable_mixed_table).
  - exists unit_doc, unit_vector. split; [now left | reflexivity].
  - discriminate.
  - lia.
Defined.

End WrongDimension.

(** ** [trim] *)

Section Trim.

Import Js.
Local Open Scope string_scope.

Lemma trim_end_idempotent (s : string) : trim_end (trim_end s) = trim_end s.
Proof.
  induction s as [|c s IH]; [reflexivity|].
  cbn [trim_end]. cbv zeta.
  destruct (is_empty (trim_end s) && is_whitespace c) eqn:E; [reflexivity|].
  cbn [trim_end]. cbv zeta. rewrite IH, E. reflexivity.
Qed.

Lemma trim_start_no_leading_space (s : string) :
  no_leading_space (trim_start s).
Proof.
  induction s as [|c s IH]; cbn [trim_start]; [exact I|].
  destruct (is_whitespace c) eqn:E; [exact IH | exact E].
Qed.

Lemma trim_start_fixed (s : string) :
  no_leading_space s -> trim_start s = s.
Proof.
  destruct s as [|c s]; cbn; [reflexivity|]. now intros ->.
Qed.

Lemma trim_end_no_leading_space (s : string) :
  no_leading_space s -> no_leading_space (trim_end s).
Proof.
  destruct s as [|c s]; cbn [trim_end no_leading_space]; [trivial|].
  intros E. cbv zeta. rewrite E, andb_false_r. exact E.
Qed.

Lemma trim_idempotent (s : string) : trim (trim s) = trim s.
Proof.
  unfold trim.
  rewrite (trim_start_fixed (trim_end (trim_start s))).
  - apply trim_end_idempotent.
  - apply trim_end_no_leading_space, trim_start_no_leading_space.
Qed.

End Trim.

(** ** [handleSend]: the two phases, and what is sent *)

Section TwoPhases.

Import Js Api ChatInterface ChatEvents.
Local Open Scope string_scope.

Variable post : string -> axios_result.
Variables t_user t_reply : Z.

(** [handleSend] is its part before the [await] followed, when a request
    was sent, by its part after the [await] run on the outcome of
    [sendMessage]; when the guard stops it, nothing follows. *)
Lemma handleSend_split (st : chat_state) (w : world) :
  handleSend post t_user t_reply st w
  = match handleSend_begin t_user st w with
    | (Normal (Some q), w1) =>
        handleSend_settle t_reply (sendMessage post q)
          {| ui := ui w1; requests := (requests w1 ++ [q])%list |}
    | (Normal None, w1) => (Normal tt, w1)
    | (Throw e, w1) => (Throw e, w1)
    end.
Proof.
  unfold handleSend, handleSend_begin.
  destruct (is_empty (trim (inputText st)) || loading st); [reflexivity|].
  unfold seq, handleSend_settle, try_catch_finally, await_sendMessage,
    setError, setMessages, setInputText, setLoading, update, ret, user_message.
  cbn [ui requests].
  destruct (sendMessage post (trim (inputText st))) as [e|[r|]];
    reflexivity.
Qed.

(** X8.  Whatever the input, a request that [handleSend] sends carries a
    non-empty question without white space at either end (trimming it again
    changes nothing), it is the only request of the invocation, and the
    same text is appended to the history as the message of the user. *)
Theorem handleSend_sends_trimmed (st : chat_state) (q : string) :
  In q (requests (snd (run_handleSend post t_user t_reply st))) ->
  q = trim (inputText st) /\ q <> "" /\ trim q = q /\
  requests (snd (run_handleSend post t_user t_reply st)) = [q] /\
  In (user_message q t_user)
     (messages (ui (snd (run_handleSend post t_user t_reply st)))).
Proof.
  unfold run_handleSend. rewrite handleSend_split.
  unfold handleSend_begin.
  destruct (is_empty (trim (inputText st))) eqn:E; cbn [orb].
  { cbn. tauto. }
  destruct (loading st); cbn [orb].
  { cbn. tauto. }
  unfold seq, handleSend_settle, try_catch_finally, setError, setMessages,
    setInputText, setLoading, update, ret.
  cbn [ui requests messages app].
  assert (Hne : trim (inputText st) <> "").
  { intros H. rewrite H in E. discriminate. }
  destruct (sendMessage post (trim (inputText st))) as [e|[r|]];
    cbn [read_reply throw ret ui requests messages snd];
    (intros [<-|[]]; repeat split; auto using trim_idempotent;
     apply in_or_app; left; apply in_or_app; right; now left).
Qed.

End TwoPhases.

Lemma handleSend_sends_trimmed_witness :
  In "hello"%string
    (ChatInterface.requests
       (snd (ChatInterface.run_handleSend ChatInterface.server_up 10 20
               (ChatInterface.fresh_state " hello ")))) /\
  Js.trim "hello" = "hello"%string.
Proof.
  assert (H : In "hello"%string
                (ChatInterface.requests
                   (snd (ChatInterface.run_handleSend
                           ChatInterface.server_up 10 20
                           (ChatInterface.fresh_state " hello ")))))
    by (now left).
  split; [exact H|].
  exact (proj1 (proj2 (proj2
           (@handleSend_sends_trimmed ChatInterface.server_up 10 20
              (ChatInterface.fresh_state " hello ") "hello" H)))).
Defined.

(** ** The component over time *)

Section Sessions.

Import Js Api ChatInterface ChatEvents.
Local Open Scope string_scope.

Lemma exchanges_app (u a : chat_message) :
  msg_role u = user -> isError u = false -> msg_role a = assistant ->
  forall l, exchanges l -> exchanges (l ++ [u; a]).
Proof.
  intros Hu He Ha.
  assert (H : forall n l, length l <= n -> exchanges l ->
                          exchanges (l ++ [u; a])).
  { induction n as [|n IH]; intros [|x [|y l]] Hlen Hl; cbn in *;
      try tauto; try lia.
    destruct Hl as (H1 & H2 & H3 & H4). repeat split; auto.
    apply IH; [lia | exact H4]. }
  intros l. apply (H (length l)). lia.
Qed.

Lemma step_consistent (s : session) (ev : event) :
  consistent s -> consistent (step s ev).
Proof.
  intros Hs. destruct ev as [v|tu|tr r]; cbn [step].
  - (* typing touches neither the history nor the flag *)
    destruct Hs as [(Hf & Hl & He)|(q & tu & hist & Hf & Hl & Hm & He)].
    + left. cbn. auto.
    + right. exists q, tu, hist. cbn. auto.
  - unfold apply_eff, handleSend_begin.
    destruct (is_empty (trim (inputText (view s)))) eqn:E; cbn [orb].
    { cbn. destruct s; exact Hs. }
    destruct Hs as [(Hf & Hl & He)|(q & tu' & hist & Hf & Hl & Hm & He)].
    + rewrite Hl. cbn. right.
      exists (trim (inputText (view s))), tu, (messages (view s)).
      rewrite Hf. cbn. auto.
    + rewrite Hl. cbn. right. exists q, tu', hist. auto.
  - destruct Hs as [(Hf & Hl & He)|(q & tu & hist & Hf & Hl & Hm & He)].
    + rewrite Hf. left. auto.
    + rewrite Hf.
      destruct (settle_appends_one tr (sendMessage (fun _ => r) q) (view s))
        as (a & Heq & Ha).
      left. cbn [in_flight view]. rewrite Heq. cbn [snd loading messages].
      repeat split.
      rewrite Hm, <- app_assoc. cbn [app].
      apply exchanges_app; auto.
Qed.

(** X9.  Whatever the user types and whenever [handleSend] is invoked or a
    request settles, the component is in one of two states: nothing is in
    flight, [loading] is false and the history consists of complete
    exchanges (a question of the user, then one message of the assistant);
    or exactly one request is in flight, [loading] is true and the history
    is such a sequence followed by the question sent.  So no second request
    leaves while one is in flight. *)
Theorem session_consistent (evs : list event) :
  consistent (run_events evs) /\
  length (in_flight (run_events evs)) <= 1 /\
  (loading (view (run_events evs)) = true <->
   in_flight (run_events evs) <> []).
Proof.
  assert (H : consistent (run_events evs)).
  { unfold run_events.
    assert (Hgen : forall s, consistent s -> consistent (fold_left step evs s)).
    { induction evs as [|ev evs IH]; intros s Hs; cbn [fold_left];
        [exact Hs|].
      apply IH, step_consistent, Hs. }
    apply Hgen. left. cbn. auto. }
  split; [exact H|].
  destruct H as [(Hf & Hl & _)|(q & tu & hist & Hf & Hl & _)];
    rewrite Hf, Hl; cbn; split; try lia; split; congruence.
Qed.

End Sessions.

(** ** [InputBox] wired into [ChatInterface] *)

Section Wiring.

Import Js Api ChatInterface ChatEvents.
Local Open Scope string_scope.

Variable post : string -> axios_result.
Variables t_user t_reply : Z.

(** X10.  In the wiring of [ChatInterface], the checks of [InputBox] and the
    guard of [handleSend] agree.  Enter without Shift and a click on the
    button do exactly what a direct call of [handleSend] does; any other
    key, Shift+Enter included, sends nothing, changes nothing and leaves the
    default action of the key alone; and the button is disabled exactly
    when [handleSend] would stop at its guard. *)
Theorem input_box_wiring (st : chat_state) (e : InputBox.key_event) :
  (press_key post t_user t_reply st e
   = if String.eqb (InputBox.key e) "Enter" && negb (InputBox.shiftKey e)
     then run_handleSend post t_user t_reply st
     else (Normal tt, {| ui := st; requests := [] |})) /\
  (InputBox.default_prevented (InputBox.handleKeyDown (input_props st) e)
   = String.eqb (InputBox.key e) "Enter" && negb (InputBox.shiftKey e)) /\
  click_send post t_user t_reply st = run_handleSend post t_user t_reply st /\
  InputBox.button_disabled (input_props st)
  = (is_empty (trim (inputText st)) || loading st).
Proof.
  assert (Hb : InputBox.button_disabled (input_props st)
               = (is_empty (trim (inputText st)) || loading st)).
  { unfold InputBox.button_disabled, input_props, truthy.
    cbn [InputBox.value InputBox.disabled InputBox.loading].
    destruct (loading st), (is_empty (trim (inputText st))); reflexivity. }
  assert (Hstop : InputBox.may_send (input_props st) = false ->
                  run_handleSend post t_user t_reply st
                  = (Normal tt, {| ui := st; requests := [] |})).
  { rewrite may_send_guard, negb_false_iff. apply handleSend_guard. }
  repeat split.
  - unfold press_key, InputBox.handleKeyDown.
    destruct (String.eqb (InputBox.key e) "Enter"
              && negb (InputBox.shiftKey e)); cbn [InputBox.send_called];
      [|reflexivity].
    destruct (InputBox.may_send (input_props st)) eqn:E; [reflexivity|].
    now rewrite Hstop.
  - unfold InputBox.handleKeyDown.
    now destruct (String.eqb (InputBox.key e) "Enter"
                  && negb (InputBox.shiftKey e)).
  - unfold click_send, InputBox.click. rewrite Hb.
    destruct (is_empty (trim (inputText st)) || loading st) eqn:G;
      cbn [InputBox.send_called InputBox.handleSend].
    + symmetry. now apply handleSend_guard.
    + rewrite may_send_guard, G. reflexivity.
  - exact Hb.
Qed.

(** X11.  A click on an example button sends what the input held when the
    button was drawn, not the example that was clicked.  When the input was
    blank (or a request was in flight) at that time, the click only puts
    the example into the input; otherwise it does what [handleSend] does in
    that state: it sends the text that was in the input, and the example is
    overwritten when the input is cleared. *)
Theorem click_example_sends_old_input (st : chat_state) (text : string) :
  click_example post t_user t_reply st text
  = if is_empty (trim (inputText st)) || loading st
    then (Normal tt,
          {| ui := {| messages := messages st; inputText := text;
                      loading := loading st; error := error st |};
             requests := [] |})
    else run_handleSend post t_user t_reply st.
Proof.
  unfold click_example, run_handleSend, handleSend.
  destruct (is_empty (trim (inputText st)) || loading st); [reflexivity|].
  unfold seq, try_catch_finally, await_sendMessage, setError, setMessages,
    setInputText, setLoading, update.
  cbn [ui requests messages inputText loading error app].
  destruct (sendMessage post (trim (inputText st))) as [e|[r|]];
    reflexivity.
Qed.

End Wiring.

(** ** The three helpers of [api.js] *)

Section ApiErrors.

Import Js Api ApiHelpers.
Local Open Scope string_scope.

Lemma downloadErrorMessage_spec (e : axios_error) :
  downloadErrorMessage e
  = match axios_message e with
    | Some (String c m) => VString (String c m)
    | _ => VString "Failed to download PDF"
    end.
Proof.
  unfold downloadErrorMessage, blob_property, error_message, or_value.
  cbn [truthy_value].
  destruct (axios_message e) as [[|c m]|]; reflexivity.
Qed.

(** X12.  [downloadPDF] asks for the response as a [Blob], so its [catch]
    block finds neither a [detail] nor a [message] in the body: the [Error]
    it throws carries the message of the transport error when that is not
    empty, and the fixed text otherwise, never an empty message, and two
    failures with the same transport message give the same [Error] whatever
    the server answered.  [checkHealth] throws its fixed message whatever
    the failure. *)
Theorem api_error_messages (A : Type) (e : axios_error) (question : string) :
  exists m,
    @downloadPDF A (fun _ => Failed e) question = inl {| message := m |} /\
    m <> "" /\
    (truthy (axios_message e) = true -> axios_message e = Some m) /\
    (truthy (axios_message e) = false -> m = "Failed to download PDF") /\
    (forall e', axios_message e' = axios_message e ->
       @downloadPDF A (fun _ => Failed e') question
       = @downloadPDF A (fun _ => Failed e) question) /\
    @checkHealth A (Failed e)
    = inl {| message := "Backend server is not responding" |}.
Proof.
  unfold downloadPDF. rewrite downloadErrorMessage_spec.
  destruct (axios_message e) as [[|c m]|] eqn:E; cbn [truthy is_empty negb].
  - exists "Failed to download PDF".
    repeat split; try discriminate.
    intros e' He'. now rewrite downloadErrorMessage_spec, He'.
  - exists (String c m).
    repeat split; try discriminate.
    intros e' He'. now rewrite downloadErrorMessage_spec, He'.
  - exists "Failed to download PDF".
    repeat split; try discriminate.
    intros e' He'. now rewrite downloadErrorMessage_spec, He'.
Qed.

(** The same failure through the two helpers: [sendMessage] reports the
    [detail] of the body, [downloadPDF] the message of the transport. *)
Example download_ignores_detail :
  sendMessage (fun _ => Rejected unavailable_503) "hello"
  = inl {| message := "Request failed" |} /\
  @downloadPDF unit (fun _ => Failed unavailable_503) "hello"
  = inl {| message := "Request failed with status code 503" |}.
Proof. split; reflexivity. Qed.

End ApiErrors.

(** ** The error banner *)

Section Banner.

Import Js Api ChatInterface ChatEvents.
Local Open Scope string_scope.

Lemma step_banner (s : session) (ev : event) :
  consistent s -> banner_quotes_last s -> banner_quotes_last (step s ev).
Proof.
  intros Hc Hb. destruct ev as [v|tu|tr r]; cbn [step].
  - intros m H. cbn in H. discriminate H.
  - unfold apply_eff, handleSend_begin.
    destruct (is_empty (trim (inputText (view s))) || loading (view s)).
    + cbn. destruct s. exact Hb.
    + intros m H. cbn in H. discriminate H.
  - destruct (in_flight s) as [|q rest] eqn:Hf; [exact Hb|].
    assert (Hnone : error (view s) = None).
    { destruct (error (view s)) as [m|] eqn:E; [|reflexivity].
      destruct (Hb m E) as [Hf' _]. congruence. }
    assert (Hrest : rest = []).
    { destruct Hc as [(Hf' & _)|(q' & tu & hist & Hf' & _)]; congruence. }
    subst rest. intros m.
    unfold apply_eff, handleSend_settle, try_catch_finally, seq, setError,
      setMessages, setLoading, update, sendMessage.
    destruct r as [[rep|]|ax];
      cbn [read_reply ret throw ui requests messages inputText loading error
           snd view in_flight].
    + rewrite Hnone. discriminate.
    + intros H. injection H as <-. split; [reflexivity|].
      eexists _, _. split; [reflexivity|]. repeat split. now left.
    + rewrite !string_or_spec.
      destruct (is_empty (message (new_Error_of (errorMessage ax))));
        intros H; injection H as <-; (split; [reflexivity|]);
        eexists _, _; (split; [reflexivity|]); repeat split; auto.
Qed.

(** X15.  In a session whose invocations of [handleSend] read the current
    state: whenever the error banner is set, nothing is in flight and the
    history ends with an error-flagged message of the assistant; that
    message quotes the text of the banner, except when the thrown [Error]
    had an empty message, where the banner and the message show the two
    different fixed texts of the [catch] block.  Typing, and every accepted
    invocation of [handleSend], clear the banner. *)
Theorem banner_matches_history (evs : list event) :
  banner_quotes_last (run_events evs) /\
  (forall v, error (view (step (run_events evs) (Typed v))) = None) /\
  (forall t_user,
     in_flight (step (run_events evs) (Submitted t_user))
     <> in_flight (run_events evs) ->
     error (view (step (run_events evs) (Submitted t_user))) = None).
Proof.
  split; [|split].
  - unfold run_events.
    assert (Hgen : forall s, consistent s -> banner_quotes_last s ->
                     consistent (fold_left step evs s) /\
                     banner_quotes_last (fold_left step evs s)).
    { induction evs as [|ev evs IH]; intros s Hc Hb; cbn [fold_left];
        [now split|].
      apply IH; [now apply step_consistent | now apply step_banner]. }
    apply Hgen.
    + left. cbn. auto.
    + intros m H. discriminate H.
  - reflexivity.
  - intros tu. cbn [step]. unfold apply_eff, handleSend_begin.
    destruct (is_empty (trim (inputText (view (run_events evs))))
              || loading (view (run_events evs))).
    + cbn. intros H. now contradiction H.
    + intros _. reflexivity.
Qed.

End Banner.
